(** * Logging-plus-plus: a model of [LogHandler] (src/LogHandler.cpp)

    The development follows the source file top to bottom:
    - byte strings and the C-library pieces the handler relies on
      ([c_str], [snprintf] truncation, [std::ofstream], [std::thread]);
    - the [LogHandler] object and its member functions as state
      transformers with an explicit outcome (return, throw, terminate);
    - the process made of producer threads, the thread running [init],
      the output thread ([outputEngine]) and the destructor, as a labelled
      step relation whose atomic steps are the critical sections of the
      source;
    - the properties of the engine. *)

From Stdlib Require Import List String Ascii Bool Arith NArith Lia.
From Stdlib Require Import DecimalString.
Import ListNotations.

Local Open Scope string_scope.
Local Open Scope list_scope.
Local Open Scope N_scope.
Local Open Scope nat_scope.

(** ** Byte strings *)

Module CString.

Local Open Scope string_scope.

Definition NUL : ascii := Ascii.zero.
Definition ESC : ascii := ascii_of_nat 27.
Definition LF : ascii := ascii_of_nat 10.
Definition nl : string := String LF EmptyString.

(** [s.c_str()] read through a [%s] conversion or a [const char*]
    parameter: the bytes before the first NUL. *)
Fixpoint c_str (s : string) : string :=
  match s with
  | EmptyString => EmptyString
  | String c r => if Ascii.eqb c NUL then EmptyString else String c (c_str r)
  end.

Fixpoint no_nul (s : string) : bool :=
  match s with
  | EmptyString => true
  | String c r => negb (Ascii.eqb c NUL) && no_nul r
  end.

(** The first [n] bytes of [s]: what [snprintf] keeps of its rendering
    when the destination holds [n] bytes besides the terminator. *)
Fixpoint take (n : nat) (s : string) : string :=
  match n, s with
  | O, _ => EmptyString
  | _, EmptyString => EmptyString
  | S n', String c r => String c (take n' r)
  end.

(** [std::string::pop_back] (on a non-empty string). *)
Fixpoint pop_back (s : string) : string :=
  match s with
  | EmptyString => EmptyString
  | String c EmptyString => EmptyString
  | String c r => String c (pop_back r)
  end.

(** [%u] of an [unsigned]. *)
Definition utoa (n : N) : string := NilZero.string_of_uint (N.to_uint n).

Fixpoint repeat_char (c : ascii) (n : nat) : string :=
  match n with
  | O => EmptyString
  | S n' => String c (repeat_char c n')
  end.

End CString.
Import CString.

(** ** Data model (include/LogHandler.hpp) *)

(** Modelled from the spec: [enum class Level] is declared in
    LoggingLib.hpp, which is not part of the sources at hand; the
    specification (section 3) gives the enumeration and its order,
    Debug < Info < Warn < Error, which is also the order of the cases of
    the [switch] in [formatOutput]. *)
Inductive Level : Type := Debug | Info | Warn | Error.

Definition level_rank (l : Level) : N :=
  match l with Debug => 0 | Info => 1 | Warn => 2 | Error => 3 end%N.

(** [a < b] on [Level] (comparison of the enumerators' values). *)
Definition level_lt (a b : Level) : bool := (level_rank a <? level_rank b)%N.

(** [enum class Output {FILE, CONSOLE}]. *)
Inductive Output : Type := FILE | CONSOLE.

(** [std::map<Output, bool> output]: built by the constructor with both
    keys and only read or assigned through [at], so its key set never
    changes; a pair of flags. *)
Record OutputMap : Type := { at_FILE : bool; at_CONSOLE : bool }.

Definition at_ (m : OutputMap) (k : Output) : bool :=
  match k with FILE => at_FILE m | CONSOLE => at_CONSOLE m end.

Definition set_at (m : OutputMap) (k : Output) (b : bool) : OutputMap :=
  match k with
  | FILE => {| at_FILE := b; at_CONSOLE := at_CONSOLE m |}
  | CONSOLE => {| at_FILE := at_FILE m; at_CONSOLE := b |}
  end.

(** [struct LogHandler::OutputEntity]. *)
Record OutputEntity : Type := { toConsole : string; toFile : string }.

(** [std::ofstream]: whether a file is attached, the texts inserted and
    not yet flushed, and the texts this stream has put into the file since
    it was opened (the file is opened for appending, so they follow
    whatever it held). Insertion into a stream with no file attached
    fails and stores nothing. *)
Module Ofstream.

Record t : Type := { is_open : bool; pending : list string; file : list string }.

Definition closed : t := {| is_open := false; pending := []; file := [] |}.

(** [close()]: flushes, then detaches. *)
Definition close (f : t) : t :=
  if is_open f
  then {| is_open := false; pending := []; file := file f ++ pending f |}
  else f.

(** [open(path, out | app)], [ok] telling whether the system opened the
    file; the call fails on a stream that is already open. *)
Definition open (ok : bool) (f : t) : t :=
  if is_open f then f
  else if ok then {| is_open := true; pending := []; file := [] |} else f.

(** [stream << msg]. *)
Definition put (msg : string) (f : t) : t :=
  if is_open f
  then {| is_open := true; pending := pending f ++ [msg]; file := file f |}
  else f.

(** [stream << std::flush]. *)
Definition flush (f : t) : t :=
  if is_open f
  then {| is_open := true; pending := []; file := file f ++ pending f |}
  else f.

End Ofstream.

(** The members of [LogHandler]. [outputThread] is kept as its
    [joinable()] status; the mutexes and condition variables appear in the
    step relation of the process further down. [MaxMsgSize] is a [const]
    member the only constructor sets to 300. *)
Record LogHandler : Type := {
  isEngineReady : bool;
  isCloseEngine : bool;
  isStop : bool;
  outputThread : bool;
  maxBufferSize : N;
  flushFrequency : N;
  logDir : string;
  logFile : string;
  logStream : Ofstream.t;
  currentTime : string;
  logLevel : Level;
  output : OutputMap;
  logReadBuffer : list OutputEntity;
  logWriteBuffer : list OutputEntity
}.

Definition MaxMsgSize : nat := 300.

(** [LogHandler::LogHandler()]. *)
Definition newHandler : LogHandler := {|
  isEngineReady := false;
  isCloseEngine := false;
  isStop := true;
  outputThread := false;
  maxBufferSize := 50;
  flushFrequency := 3;
  logDir := "";
  logFile := "app.log";
  logStream := Ofstream.closed;
  currentTime := "";
  logLevel := Info;
  output := {| at_FILE := true; at_CONSOLE := true |};
  logReadBuffer := [];
  logWriteBuffer := []
|}.

(** Assignments to single members. *)
Definition with_isEngineReady (b : bool) (s : LogHandler) : LogHandler :=
  {| isEngineReady := b; isCloseEngine := isCloseEngine s; isStop := isStop s;
     outputThread := outputThread s; maxBufferSize := maxBufferSize s;
     flushFrequency := flushFrequency s; logDir := logDir s; logFile := logFile s;
     logStream := logStream s; currentTime := currentTime s; logLevel := logLevel s;
     output := output s; logReadBuffer := logReadBuffer s;
     logWriteBuffer := logWriteBuffer s |}.

Definition with_isCloseEngine (b : bool) (s : LogHandler) : LogHandler :=
  {| isEngineReady := isEngineReady s; isCloseEngine := b; isStop := isStop s;
     outputThread := outputThread s; maxBufferSize := maxBufferSize s;
     flushFrequency := flushFrequency s; logDir := logDir s; logFile := logFile s;
     logStream := logStream s; currentTime := currentTime s; logLevel := logLevel s;
     output := output s; logReadBuffer := logReadBuffer s;
     logWriteBuffer := logWriteBuffer s |}.

Definition with_isStop (b : bool) (s : LogHandler) : LogHandler :=
  {| isEngineReady := isEngineReady s; isCloseEngine := isCloseEngine s; isStop := b;
     outputThread := outputThread s; maxBufferSize := maxBufferSize s;
     flushFrequency := flushFrequency s; logDir := logDir s; logFile := logFile s;
     logStream := logStream s; currentTime := currentTime s; logLevel := logLevel s;
     output := output s; logReadBuffer := logReadBuffer s;
     logWriteBuffer := logWriteBuffer s |}.

Definition with_outputThread (b : bool) (s : LogHandler) : LogHandler :=
  {| isEngineReady := isEngineReady s; isCloseEngine := isCloseEngine s;
     isStop := isStop s; outputThread := b; maxBufferSize := maxBufferSize s;
     flushFrequency := flushFrequency s; logDir := logDir s; logFile := logFile s;
     logStream := logStream s; currentTime := currentTime s; logLevel := logLevel s;
     output := output s; logReadBuffer := logReadBuffer s;
     logWriteBuffer := logWriteBuffer s |}.

Definition with_maxBufferSize (n : N) (s : LogHandler) : LogHandler :=
  {| isEngineReady := isEngineReady s; isCloseEngine := isCloseEngine s;
     isStop := isStop s; outputThread := outputThread s; maxBufferSize := n;
     flushFrequency := flushFrequency s; logDir := logDir s; logFile := logFile s;
     logStream := logStream s; currentTime := currentTime s; logLevel := logLevel s;
     output := output s; logReadBuffer := logReadBuffer s;
     logWriteBuffer := logWriteBuffer s |}.

Definition with_flushFrequency (n : N) (s : LogHandler) : LogHandler :=
  {| isEngineReady := isEngineReady s; isCloseEngine := isCloseEngine s;
     isStop := isStop s; outputThread := outputThread s;
     maxBufferSize := maxBufferSize s; flushFrequency := n; logDir := logDir s;
     logFile := logFile s; logStream := logStream s; currentTime := currentTime s;
     logLevel := logLevel s; output := output s; logReadBuffer := logReadBuffer s;
     logWriteBuffer := logWriteBuffer s |}.

Definition with_logPath (d f : string) (s : LogHandler) : LogHandler :=
  {| isEngineReady := isEngineReady s; isCloseEngine := isCloseEngine s;
     isStop := isStop s; outputThread := outputThread s;
     maxBufferSize := maxBufferSize s; flushFrequency := flushFrequency s;
     logDir := d; logFile := f; logStream := logStream s;
     currentTime := currentTime s; logLevel := logLevel s; output := output s;
     logReadBuffer := logReadBuffer s; logWriteBuffer := logWriteBuffer s |}.

Definition with_logStream (f : Ofstream.t) (s : LogHandler) : LogHandler :=
  {| isEngineReady := isEngineReady s; isCloseEngine := isCloseEngine s;
     isStop := isStop s; outputThread := outputThread s;
     maxBufferSize := maxBufferSize s; flushFrequency := flushFrequency s;
     logDir := logDir s; logFile := logFile s; logStream := f;
     currentTime := currentTime s; logLevel := logLevel s; output := output s;
     logReadBuffer := logReadBuffer s; logWriteBuffer := logWriteBuffer s |}.

Definition with_currentTime (t : string) (s : LogHandler) : LogHandler :=
  {| isEngineReady := isEngineReady s; isCloseEngine := isCloseEngine s;
     isStop := isStop s; outputThread := outputThread s;
     maxBufferSize := maxBufferSize s; flushFrequency := flushFrequency s;
     logDir := logDir s; logFile := logFile s; logStream := logStream s;
     currentTime := t; logLevel := logLevel s; output := output s;
     logReadBuffer := logReadBuffer s; logWriteBuffer := logWriteBuffer s |}.

Definition with_logLevel (l : Level) (s : LogHandler) : LogHandler :=
  {| isEngineReady := isEngineReady s; isCloseEngine := isCloseEngine s;
     isStop := isStop s; outputThread := outputThread s;
     maxBufferSize := maxBufferSize s; flushFrequency := flushFrequency s;
     logDir := logDir s; logFile := logFile s; logStream := logStream s;
     currentTime := currentTime s; logLevel := l; output := output s;
     logReadBuffer := logReadBuffer s; logWriteBuffer := logWriteBuffer s |}.

Definition with_output (m : OutputMap) (s : LogHandler) : LogHandler :=
  {| isEngineReady := isEngineReady s; isCloseEngine := isCloseEngine s;
     isStop := isStop s; outputThread := outputThread s;
     maxBufferSize := maxBufferSize s; flushFrequency := flushFrequency s;
     logDir := logDir s; logFile := logFile s; logStream := logStream s;
     currentTime := currentTime s; logLevel := logLevel s; output := m;
     logReadBuffer := logReadBuffer s; logWriteBuffer := logWriteBuffer s |}.

Definition with_buffers (r w : list OutputEntity) (s : LogHandler) : LogHandler :=
  {| isEngineReady := isEngineReady s; isCloseEngine := isCloseEngine s;
     isStop := isStop s; outputThread := outputThread s;
     maxBufferSize := maxBufferSize s; flushFrequency := flushFrequency s;
     logDir := logDir s; logFile := logFile s; logStream := logStream s;
     currentTime := currentTime s; logLevel := logLevel s; output := output s;
     logReadBuffer := r; logWriteBuffer := w |}.

(** How a call ends: it returns, it throws (the value is the state left
    behind when the exception leaves the function), or the process is
    ended by [std::terminate]. *)
Inductive exn : Type :=
| logic_error (what : string)
| runtime_error (what : string).

Inductive outcome (A : Type) : Type :=
| Returns (a : A)
| Throws (e : exn) (a : A)
| Terminates.
Arguments Returns {A} a.
Arguments Throws {A} e a.
Arguments Terminates {A}.

(** ** What the handler takes from outside *)

(** The helpers of LoggingLib.hpp used by LogHandler.cpp; the header is
    not part of the sources at hand, so they are parameters.
    [pathToFile logPath logDir logFile] gives the new values of its two
    reference arguments. *)
Record LoggingLib : Type := {
  getLogLevel : Level -> string;
  pathToFile : string -> string -> string -> string * string;
  dirAndFileToPath : string -> string -> string
}.

Inductive AccessMode : Type := F_OK | W_OK.

(** The system calls of [openLogStream] over an abstract file system.
    [sys_access] is true when [access] returns 0; [sys_stat] is [None]
    when [stat] returns a negative value and otherwise tells [S_ISDIR] of
    the mode it stored; [sys_mkdir] and [sys_open_app] are [None] on
    failure. [unset_isdir idx] is [S_ISDIR] of the mode read, in the
    turn of index [idx] of the loop of [openLogStream], from a
    [struct stat] that [stat] left unwritten: what is read there is
    whatever the stack holds in that turn. *)
Record Posix (World : Type) : Type := {
  sys_access : World -> string -> AccessMode -> bool;
  sys_stat : World -> string -> option bool;
  sys_mkdir : World -> string -> option World;
  sys_open_app : World -> string -> option World;
  unset_isdir : nat -> bool
}.
Arguments sys_access {World}.
Arguments sys_stat {World}.
Arguments sys_mkdir {World}.
Arguments sys_open_app {World}.
Arguments unset_isdir {World}.

(** ** Member functions (LogHandler.cpp) *)

(** The file system and [std::cout], which the member functions reach
    besides the object itself. [cout] lists the texts inserted so far. *)
Record Env (World : Type) : Type := { fs : World; cout : list string }.
Arguments fs {World}.
Arguments cout {World}.
Arguments Build_Env {World}.

Section Members.

Context (lib : LoggingLib) {World : Type} (os : Posix World).

(** *** Configuration: [setOutput] ... [setMaxBufferSize]

    Each takes [logMtx] for its whole body and touches nothing but the
    object. *)

Definition setOutput (o : Output) (isAllowed : bool) (s : LogHandler) : LogHandler :=
  if negb (isStop s) then s
  else
    match o with
    | FILE =>
        let s1 :=
          if negb isAllowed && Ofstream.is_open (logStream s)
          then with_logStream (Ofstream.close (logStream s)) s
          else s in
        with_output (set_at (output s1) FILE isAllowed) s1
    | CONSOLE => with_output (set_at (output s) CONSOLE isAllowed) s
    end.

Definition setLogFile (logPath : string) (s : LogHandler) : LogHandler :=
  if negb (isStop s) then s
  else
    let s1 :=
      if Ofstream.is_open (logStream s)
      then with_logStream (Ofstream.close (logStream s)) s
      else s in
    let s2 := with_output (set_at (output s1) FILE true) s1 in
    let (d, f) := pathToFile lib logPath (logDir s2) (logFile s2) in
    with_logPath d f s2.

Definition setLogLevel (level : Level) (s : LogHandler) : LogHandler :=
  if negb (isStop s) then s else with_logLevel level s.

Definition setFlushFrequency (fre : N) (s : LogHandler) : LogHandler :=
  if negb (isStop s) then s else with_flushFrequency fre s.

Definition setMaxBufferSize (size : N) (s : LogHandler) : LogHandler :=
  if negb (isStop s) then s else with_maxBufferSize size s.

(** [isLevelAvailable], on the handler it reads. *)
Definition isLevelAvailable (level : Level) (s : LogHandler) : bool :=
  negb (level_lt level (logLevel s)).

(** *** [formatOutput] *)

Definition color (level : Level) : string :=
  match level with
  | Debug => String ESC "[34m"
  | Info => String ESC "[32m"
  | Warn => String ESC "[33m"
  | Error => String ESC "[31m"
  end.

(** The text the format ["%s -> [%s::%s::%u] %s >> %s\n"] produces from
    the six arguments, before [snprintf] fits it to the buffer. *)
Definition rendering (level : Level) (msg file func : string) (line : N)
           (s : LogHandler) : string :=
  (c_str (getLogLevel lib level) ++ " -> [" ++ c_str file ++ "::" ++ c_str func
     ++ "::" ++ utoa line ++ "] " ++ c_str (currentTime s) ++ " >> "
     ++ c_str msg ++ nl)%string.

(** [snprintf(buffer, size, ...)] followed by reading [buffer] back as a
    C string: at most [size - 1] bytes of the text. *)
Definition snprintf (size : nat) (text : string) : string := take (size - 1) text.

Definition formatOutput (level : Level) (msg file func : string) (line : N)
           (s : LogHandler) : OutputEntity :=
  let buffer := snprintf MaxMsgSize (rendering level msg file func line s) in
  {| toConsole := (color level ++ buffer)%string; toFile := buffer |}.

(** *** [log] *)

Definition not_inited : exn := logic_error "logging handler haven't been inited".

(** The part of [log] under [logMtx]; the flag returned tells whether
    [logCV.notify_one()] was called. *)
Definition log_locked (entity : OutputEntity) (s : LogHandler)
  : outcome (LogHandler * bool) :=
  if isStop s then Throws not_inited (s, false)
  else
    let s' := with_buffers (logReadBuffer s ++ [entity]) (logWriteBuffer s) s in
    Returns (s', (maxBufferSize s' <=? N.of_nat (List.length (logReadBuffer s')))%N).

Definition log (level : Level) (msg file func : string) (line : N)
           (s : LogHandler) : outcome (LogHandler * bool) :=
  if level_lt level (logLevel s) then Returns (s, false)
  else log_locked (formatOutput level msg file func line s) s.

(** Successive accepted appends, with the notification flag of each; the
    sequence stops at the first call that throws. *)
Fixpoint log_all (entities : list OutputEntity) (s : LogHandler)
  : LogHandler * list bool :=
  match entities with
  | [] => (s, [])
  | entity :: rest =>
      match log_locked entity s with
      | Returns (s', notified) =>
          let (s'', flags) := log_all rest s' in (s'', notified :: flags)
      | _ => (s, [])
      end
  end.

(** *** [freshCurrentTime]

    [ctime] is the text [std::ctime] gives for the present time, which
    ends in a newline. *)
Definition freshCurrentTime (ctime : string) (s : LogHandler) : LogHandler :=
  with_currentTime (pop_back ctime) s.

(** *** [openLogStream] *)

Definition cannot_create : exn := runtime_error "Cannot create directory".
Definition directory_error : exn := runtime_error "Directory error".

(** The directory a turn of the loop works on, from the character
    [curChar] at index [idx]: the part of the name before a slash, the
    whole name at its last index, and none where the turn ends with
    [continue]. *)
Definition turn_dir (dirname : string) (idx : nat) (curChar : ascii)
  : option string :=
  if Ascii.eqb curChar "/"%char then Some (String.substring 0 idx dirname)
  else if idx + 1 =? String.length dirname then Some dirname
  else None.

(** The [for] loop creating the directories of [logDir], from index
    [idx], with [n] characters left to visit. The result is the file
    system and [cout] after the loop and the exception that ended it, if
    any. The index is an [unsigned short]: in a name of 65536 bytes or
    more it would come back to 0 after 65535 and the loop would not end
    by its test. The definition follows the loop as long as the index
    has not come back to 0, which is all of the loop for a name of at
    most 65535 bytes. *)
Fixpoint createDirs (dirname : string) (n idx : nat) (e : Env World)
  : Env World * option exn :=
  match n with
  | O => (e, None)
  | S n' =>
      match String.get idx dirname with
      | None => (e, None)
      | Some curChar =>
          match turn_dir dirname idx curChar with
          | None => createDirs dirname n' (idx + 1) e
          | Some dir =>
              match sys_stat os (fs e) (c_str dir) with
              | Some isdir =>
                  if isdir then createDirs dirname n' (idx + 1) e
                  else (e, Some directory_error)
              | None =>
                  match sys_mkdir os (fs e) (c_str dir) with
                  | None =>
                      ({| fs := fs e; cout := cout e ++ [dir; nl] |},
                       Some cannot_create)
                  | Some w' =>
                      let e' := {| fs := w'; cout := cout e |} in
                      if unset_isdir os idx
                      then createDirs dirname n' (idx + 1) e'
                      else (e', Some directory_error)
                  end
              end
          end
      end
  end.

Definition openLogStream (e : Env World) (s : LogHandler)
  : outcome (Env World * LogHandler) :=
  let s1 :=
    if Ofstream.is_open (logStream s)
    then with_logStream (Ofstream.close (logStream s)) s
    else s in
  let (e1, thrown) :=
    if negb (sys_access os (fs e) (c_str (logDir s1)) F_OK)
       || negb (sys_access os (fs e) (c_str (logDir s1)) W_OK)
    then createDirs (logDir s1) (String.length (logDir s1)) 0 e
    else (e, None) in
  match thrown with
  | Some x => Throws x (e1, s1)
  | None =>
      let path := dirAndFileToPath lib (logDir s1) (logFile s1) in
      match sys_open_app os (fs e1) (c_str path) with
      | Some w' =>
          Returns ({| fs := w'; cout := cout e1 |},
                   with_logStream (Ofstream.open true (logStream s1)) s1)
      | None =>
          Returns (e1, with_logStream (Ofstream.open false (logStream s1)) s1)
      end
  end.

(** *** [init]

    The first statement move-assigns a new thread to [outputThread];
    on a thread object that is still joinable that assignment calls
    [std::terminate]. The rest of the body runs under [logMtx]. *)
Definition init_spawn (s : LogHandler) : outcome LogHandler :=
  if outputThread s then Terminates else Returns (with_outputThread true s).

Definition init_locked (ctime : string) (e : Env World) (s : LogHandler)
  : outcome (Env World * LogHandler) :=
  let s1 := with_isStop false s in
  let s2 := freshCurrentTime ctime s1 in
  if at_ (output s2) FILE then openLogStream e s2 else Returns (e, s2).

Definition init (ctime : string) (e : Env World) (s : LogHandler)
  : outcome (Env World * LogHandler) :=
  match init_spawn s with
  | Returns s1 => init_locked ctime e s1
  | Throws x s1 => Throws x (e, s1)
  | Terminates => Terminates
  end.

(** *** [outputEngine], piece by piece

    [announce]: the block guarded by [if( ! isEngineReady)]. *)
Definition announce (s : LogHandler) : LogHandler :=
  if negb (isEngineReady s) then with_isEngineReady true s else s.

(** What follows the return of [logCV.wait_for] in the inner loop: the
    swap, then either [exit(0)] or the refresh of the time. *)
Inductive wait_result : Type :=
| Exit (s : LogHandler)
| Continue (s : LogHandler).

Definition is_empty {A : Type} (l : list A) : bool :=
  match l with [] => true | _ :: _ => false end.

Definition after_wait (ctime : string) (s : LogHandler) : wait_result :=
  let s1 := with_buffers (logWriteBuffer s) (logReadBuffer s) s in
  if isCloseEngine s1 && is_empty (logWriteBuffer s1)
  then Exit s1
  else Continue (freshCurrentTime ctime s1).

Definition outputToConsole (logMsg : string) (e : Env World) : Env World :=
  {| fs := fs e; cout := cout e ++ [logMsg] |}.

Definition outputToFile (logMsg : string) (s : LogHandler) : LogHandler :=
  with_logStream (Ofstream.put logMsg (logStream s)) s.

(** One turn of [while( ! logWriteBuffer.empty())], the front record
    being [logMsg]. *)
Definition drain_front (logMsg : OutputEntity) (rest : list OutputEntity)
           (e : Env World) (s : LogHandler) : Env World * LogHandler :=
  let e1 := if at_ (output s) CONSOLE then outputToConsole (toConsole logMsg) e else e in
  let s1 := if at_ (output s) FILE then outputToFile (toFile logMsg) s else s in
  (e1, with_buffers (logReadBuffer s1) rest s1).

(** The statement after the drain loop. *)
Definition flush_file (s : LogHandler) : LogHandler :=
  if at_ (output s) FILE
  then with_logStream (Ofstream.flush (logStream s)) s
  else s.

End Members.

(** ** The process

    The threads of a program using the handler, interleaved. A step is
    one of the pieces of the source that run without interference: a
    critical section of [logMtx] or [engineMtx], or code that touches
    only data no other thread uses at that point.
    - Any thread may call a configuration function or [log]; [log]
      formats its record before it takes [logMtx], so a call in flight
      sits in [inflight] between the two.
    - [init] is the creation of the thread, then its locked section.
    - The output thread runs [outputEngine]; [WorkerPc] names the places
      where it can be found between steps.
    - The destructor waits on [engineCV] for [isEngineReady], sets
      [isCloseEngine] and joins. The thread function never returns (it
      leaves through [exit(0)], which ends the process), so neither does
      [join].
    A member read or written outside a lock ([isEngineReady],
    [isCloseEngine], [currentTime], [output]) is read or written in one
    piece. [logCV.notify_one()] reaches the output thread only if it is
    inside [wait_for] at that moment ([signalled]); [wait_for] returns
    on that notification, on the timeout of the flush period, or
    spuriously.
    [appended] and [drained] record the history: the records pushed on
    the read buffer, in the order of the pushes, and the records popped by
    the drain loop. [cout_at_init] is [cout] as the locked section of
    [init] left it. *)

Inductive WorkerPc : Type :=
| WNone    (* no thread yet *)
| WTop     (* at the head of while(true) *)
| WLock    (* about to take logMtx and test the inner loop *)
| WWait    (* inside logCV.wait_for, logMtx released *)
| WDrain   (* in the drain loop, logMtx released *)
| WExit.   (* exit(0) was called *)

Inductive InitPc : Type := InitIdle | InitSpawned | InitReturned | InitThrew.

Inductive DtorPc : Type := DIdle | DWaitReady | DJoin.

(** Why [wait_for] returned. *)
Inductive WakeReason : Type := Notified | TimedOut | Spurious.

Inductive label : Type :=
| LSetOutput (o : Output) (isAllowed : bool)
| LSetLogFile (logPath : string)
| LSetLogLevel (level : Level)
| LSetFlushFrequency (fre : N)
| LSetMaxBufferSize (size : N)
| LInitSpawn
| LInitLocked (ctime : string)
| LLogFormat (level : Level) (msg file func : string) (line : N)
| LLogAppend (i : nat)
| LAnnounce
| LEnter
| LWake (r : WakeReason) (ctime : string)
| LDrain
| LFlush
| LDtorEnter
| LDtorWake.

Record Process (World : Type) : Type := {
  obj : LogHandler;
  env : Env World;
  worker : WorkerPc;
  signalled : bool;
  initPc : InitPc;
  dtor : DtorPc;
  inflight : list OutputEntity;
  terminated : bool;
  appended : list OutputEntity;
  drained : list OutputEntity;
  cout_at_init : list string
}.
Arguments obj {World}.
Arguments env {World}.
Arguments worker {World}.
Arguments signalled {World}.
Arguments initPc {World}.
Arguments dtor {World}.
Arguments inflight {World}.
Arguments terminated {World}.
Arguments appended {World}.
Arguments drained {World}.
Arguments cout_at_init {World}.
Arguments Build_Process {World}.

Section Engine.

Context (lib : LoggingLib) {World : Type} (os : Posix World).

Definition start (w : World) : Process World := {|
  obj := newHandler;
  env := {| fs := w; cout := [] |};
  worker := WNone;
  signalled := false;
  initPc := InitIdle;
  dtor := DIdle;
  inflight := [];
  terminated := false;
  appended := [];
  drained := [];
  cout_at_init := []
|}.

Local Abbreviation P := (Process World).

Definition set_obj (s : LogHandler) (p : P) : P :=
  {| obj := s; env := env p; worker := worker p; signalled := signalled p;
     initPc := initPc p; dtor := dtor p; inflight := inflight p;
     terminated := terminated p; appended := appended p; drained := drained p;
     cout_at_init := cout_at_init p |}.

Definition set_env (e : Env World) (p : P) : P :=
  {| obj := obj p; env := e; worker := worker p; signalled := signalled p;
     initPc := initPc p; dtor := dtor p; inflight := inflight p;
     terminated := terminated p; appended := appended p; drained := drained p;
     cout_at_init := cout_at_init p |}.

Definition set_worker (w : WorkerPc) (sg : bool) (p : P) : P :=
  {| obj := obj p; env := env p; worker := w; signalled := sg;
     initPc := initPc p; dtor := dtor p; inflight := inflight p;
     terminated := terminated p; appended := appended p; drained := drained p;
     cout_at_init := cout_at_init p |}.

Definition set_init (i : InitPc) (base : list string) (p : P) : P :=
  {| obj := obj p; env := env p; worker := worker p; signalled := signalled p;
     initPc := i; dtor := dtor p; inflight := inflight p;
     terminated := terminated p; appended := appended p; drained := drained p;
     cout_at_init := base |}.

Definition set_dtor (d : DtorPc) (p : P) : P :=
  {| obj := obj p; env := env p; worker := worker p; signalled := signalled p;
     initPc := initPc p; dtor := d; inflight := inflight p;
     terminated := terminated p; appended := appended p; drained := drained p;
     cout_at_init := cout_at_init p |}.

Definition set_inflight (l : list OutputEntity) (p : P) : P :=
  {| obj := obj p; env := env p; worker := worker p; signalled := signalled p;
     initPc := initPc p; dtor := dtor p; inflight := l;
     terminated := terminated p; appended := appended p; drained := drained p;
     cout_at_init := cout_at_init p |}.

Definition set_terminated (p : P) : P :=
  {| obj := obj p; env := env p; worker := worker p; signalled := signalled p;
     initPc := initPc p; dtor := dtor p; inflight := inflight p;
     terminated := true; appended := appended p; drained := drained p;
     cout_at_init := cout_at_init p |}.

Definition note_appended (x : OutputEntity) (p : P) : P :=
  {| obj := obj p; env := env p; worker := worker p; signalled := signalled p;
     initPc := initPc p; dtor := dtor p; inflight := inflight p;
     terminated := terminated p; appended := appended p ++ [x];
     drained := drained p; cout_at_init := cout_at_init p |}.

Definition note_drained (x : OutputEntity) (p : P) : P :=
  {| obj := obj p; env := env p; worker := worker p; signalled := signalled p;
     initPc := initPc p; dtor := dtor p; inflight := inflight p;
     terminated := terminated p; appended := appended p;
     drained := drained p ++ [x]; cout_at_init := cout_at_init p |}.

Definition waiting (w : WorkerPc) : bool :=
  match w with WWait => true | _ => false end.

Definition exited (w : WorkerPc) : bool :=
  match w with WExit => true | _ => false end.

(** The process is over once [std::terminate] or [exit(0)] was called. *)
Definition alive (p : P) : bool := negb (terminated p) && negb (exited (worker p)).

Fixpoint remove_nth {A : Type} (i : nat) (l : list A) : list A :=
  match i, l with
  | _, [] => []
  | O, _ :: r => r
  | S i', x :: r => x :: remove_nth i' r
  end.

(** Where the inner loop test [while(logWriteBuffer.empty())] sends the
    output thread: into [wait_for], or out to the drain loop. *)
Definition inner_test (s : LogHandler) : WorkerPc :=
  if is_empty (logWriteBuffer s) then WWait else WDrain.

(** The destructor's [while( ! isEngineReady) wait] and the assignment
    after it. *)
Definition dtor_check (p : P) : P :=
  if isEngineReady (obj p)
  then set_dtor DJoin (set_obj (with_isCloseEngine true (obj p)) p)
  else set_dtor DWaitReady p.

Definition step_alive (l : label) (p : P) : option P :=
  match l with
  | LSetOutput o b => Some (set_obj (setOutput o b (obj p)) p)
  | LSetLogFile path => Some (set_obj (setLogFile lib path (obj p)) p)
  | LSetLogLevel level => Some (set_obj (setLogLevel level (obj p)) p)
  | LSetFlushFrequency fre => Some (set_obj (setFlushFrequency fre (obj p)) p)
  | LSetMaxBufferSize size => Some (set_obj (setMaxBufferSize size (obj p)) p)
  | LInitSpawn =>
      match init_spawn (obj p) with
      | Returns s =>
          Some (set_init InitSpawned (cout_at_init p)
                  (set_worker WTop false (set_obj s p)))
      | _ => Some (set_terminated p)
      end
  | LInitLocked ctime =>
      match initPc p with
      | InitSpawned =>
          match init_locked lib os ctime (env p) (obj p) with
          | Returns (e, s) =>
              Some (set_init InitReturned (cout e) (set_env e (set_obj s p)))
          | Throws _ (e, s) =>
              Some (set_init InitThrew (cout e) (set_env e (set_obj s p)))
          | Terminates => Some (set_terminated p)
          end
      | _ => None
      end
  | LLogFormat level msg file func line =>
      if level_lt level (logLevel (obj p)) then Some p
      else Some (set_inflight
                   (inflight p ++ [formatOutput lib level msg file func line (obj p)]) p)
  | LLogAppend i =>
      match nth_error (inflight p) i with
      | None => None
      | Some entity =>
          let p1 := set_inflight (remove_nth i (inflight p)) p in
          match log_locked entity (obj p) with
          | Returns (s, notified) =>
              Some (set_worker (worker p)
                      (signalled p || (notified && waiting (worker p)))
                      (note_appended entity (set_obj s p1)))
          | _ => Some p1
          end
      end
  | LAnnounce =>
      match worker p with
      | WTop => Some (set_worker WLock false (set_obj (announce (obj p)) p))
      | _ => None
      end
  | LEnter =>
      match worker p with
      | WLock => Some (set_worker (inner_test (obj p)) false p)
      | _ => None
      end
  | LWake r ctime =>
      match worker p with
      | WWait =>
          if match r with Notified => signalled p | _ => true end
          then
            match after_wait ctime (obj p) with
            | Exit s => Some (set_worker WExit false (set_obj s p))
            | Continue s => Some (set_worker (inner_test s) false (set_obj s p))
            end
          else None
      | _ => None
      end
  | LDrain =>
      match worker p, logWriteBuffer (obj p) with
      | WDrain, logMsg :: rest =>
          let (e, s) := drain_front logMsg rest (env p) (obj p) in
          Some (note_drained logMsg (set_env e (set_obj s p)))
      | _, _ => None
      end
  | LFlush =>
      match worker p, logWriteBuffer (obj p) with
      | WDrain, [] => Some (set_worker WTop false (set_obj (flush_file (obj p)) p))
      | _, _ => None
      end
  | LDtorEnter =>
      match dtor p with
      | DIdle => Some (dtor_check p)
      | _ => None
      end
  | LDtorWake =>
      match dtor p with
      | DWaitReady => Some (dtor_check p)
      | _ => None
      end
  end.

Definition step (l : label) (p : P) : option P :=
  if alive p then step_alive l p else None.

Fixpoint run (ls : list label) (p : P) : option P :=
  match ls with
  | [] => Some p
  | l :: ls' =>
      match step l p with
      | Some p' => run ls' p'
      | None => None
      end
  end.

Definition reachable (w : World) (p : P) : Prop :=
  exists ls, run ls (start w) = Some p.

End Engine.

(** ** A concrete instance of the parameters

    Level names as in the sample line of the README, a path split at its
    last slash, two small file systems (the list of the directories that
    exist), one where every call succeeds and one that refuses every
    creation, and a third one that has regular files and write
    protection. They serve to evaluate the model on concrete inputs. *)
Module Sample.

Definition levelName (l : Level) : string :=
  match l with
  | Debug => "DEBUG" | Info => "INFO" | Warn => "WARN" | Error => "ERROR"
  end.

Fixpoint last_slash (s : string) (i : nat) (found : option nat) : option nat :=
  match s with
  | EmptyString => found
  | String c r =>
      last_slash r (S i) (if Ascii.eqb c "/"%char then Some i else found)
  end.

Definition splitPath (path dir file : string) : string * string :=
  match last_slash path 0 None with
  | Some i =>
      (String.substring 0 i path,
       String.substring (S i) (String.length path - S i) path)
  | None => (dir, path)
  end.

Definition joinPath (dir file : string) : string :=
  match dir with
  | EmptyString => file
  | _ => (dir ++ "/" ++ file)%string
  end.

Definition lib : LoggingLib :=
  {| getLogLevel := levelName; pathToFile := splitPath; dirAndFileToPath := joinPath |}.

Definition exists_dir (w : list string) (p : string) : bool :=
  existsb (String.eqb p) w.

Definition writable : Posix (list string) :=
  {| sys_access := fun w p _ => exists_dir w p;
     sys_stat := fun w p => if exists_dir w p then Some true else None;
     sys_mkdir := fun w p => Some (p :: w);
     sys_open_app := fun w _ => Some w;
     unset_isdir := fun _ => true |}.

Definition readonly : Posix (list string) :=
  {| sys_access := fun w p _ => exists_dir w p;
     sys_stat := fun w p => if exists_dir w p then Some true else None;
     sys_mkdir := fun _ _ => None;
     sys_open_app := fun _ _ => None;
     unset_isdir := fun _ => true |}.

Definition env0 : Env (list string) := {| fs := ["."%string]; cout := [] |}.

(** A file system with regular files as well: the paths that exist, each
    with whether it is a directory and whether it may be written. A
    directory or a file is created only in a directory that may be
    written, and a file is opened for appending only if it may be
    written. [garbage] is what the unwritten [struct stat] reads as,
    turn by turn. *)
Record Node : Type := {
  node_path : string;
  node_is_dir : bool;
  node_writable : bool
}.

Definition lookup (w : list Node) (p : string) : option Node :=
  find (fun n => String.eqb p (node_path n)) w.

Definition parent (p : string) : string :=
  match last_slash p 0 None with
  | Some i => String.substring 0 i p
  | None => "."%string
  end.

Definition can_create (w : list Node) (p : string) : bool :=
  match lookup w (parent p) with
  | Some d => node_is_dir d && node_writable d
  | None => false
  end.

Definition disk (garbage : nat -> bool) : Posix (list Node) :=
  {| sys_access := fun w p mode =>
       match lookup w p with
       | Some n => match mode with F_OK => true | W_OK => node_writable n end
       | None => false
       end;
     sys_stat := fun w p => option_map node_is_dir (lookup w p);
     sys_mkdir := fun w p =>
       match lookup w p with
       | Some _ => None
       | None =>
           if can_create w p
           then Some ({| node_path := p; node_is_dir := true;
                         node_writable := true |} :: w)
           else None
       end;
     sys_open_app := fun w p =>
       match lookup w p with
       | Some n => if negb (node_is_dir n) && node_writable n then Some w else None
       | None =>
           if can_create w p
           then Some ({| node_path := p; node_is_dir := false;
                         node_writable := true |} :: w)
           else None
       end;
     unset_isdir := garbage |}.

(** The working directory, two regular files, one of them write
    protected, and a write-protected directory. *)
Definition disk0 : Env (list Node) :=
  {| fs := [ {| node_path := "."; node_is_dir := true; node_writable := true |};
             {| node_path := "notes.txt"; node_is_dir := false;
                node_writable := true |};
             {| node_path := "locked.txt"; node_is_dir := false;
                node_writable := false |};
             {| node_path := "ro"; node_is_dir := true;
                node_writable := false |} ]%string;
     cout := [] |}.

Definition now : string := ("Sun Sep 20 09:32:42 2015" ++ nl)%string.

End Sample.

(** The line as the specification words it:
    [<LEVEL> -> [<sourceFile>::<function>::<line>] <timestamp> >> <message>]
    and a newline. *)
Definition spec_line (LEVEL sourceFile function : string) (line : N)
           (timestamp message : string) : string :=
  (LEVEL ++ " -> [" ++ sourceFile ++ "::" ++ function ++ "::" ++ utoa line
     ++ "] " ++ timestamp ++ " >> " ++ message ++ nl)%string.

(** The steps other than a push on the read buffer and a return of
    [wait_for] that no notification caused: what can happen when no
    further record is logged and the flush period does not elapse. *)
Definition quiet (l : label) : bool :=
  match l with
  | LLogAppend _ => false
  | LWake TimedOut _ => false
  | LWake Spurious _ => false
  | _ => true
  end.

(** The steps of the output thread. *)
Definition of_worker (l : label) : bool :=
  match l with
  | LAnnounce | LEnter | LWake _ _ | LDrain | LFlush => true
  | _ => false
  end.

(** ** The invariant of the process

    What the proofs below maintain along every execution: the history of
    the records against the two buffers, the buffers and the stream
    against the place of the output thread, and the flags of the life
    cycle against one another. *)
Section Invariant.

Context {World : Type}.

Local Abbreviation P := (Process World).

Record Inv (p : P) : Prop := {
  inv_history :
    appended p = drained p ++ logWriteBuffer (obj p) ++ logReadBuffer (obj p);
  inv_stopped : isStop (obj p) = true -> appended p = [];
  inv_init :
    initPc p = InitIdle \/ initPc p = InitSpawned -> isStop (obj p) = true;
  inv_thread :
    outputThread (obj p) = false -> worker p = WNone /\ initPc p = InitIdle;
  inv_write : worker p <> WDrain -> logWriteBuffer (obj p) = [];
  inv_open : Ofstream.is_open (logStream (obj p)) = true ->
             at_FILE (output (obj p)) = true;
  inv_file : Ofstream.is_open (logStream (obj p)) = true ->
             Ofstream.file (logStream (obj p)) ++ Ofstream.pending (logStream (obj p))
             = map toFile (drained p);
  inv_pending : Ofstream.is_open (logStream (obj p)) = true ->
                worker p <> WDrain ->
                Ofstream.pending (logStream (obj p)) = [];
  inv_cout :
    cout (env p)
    = cout_at_init p
        ++ (if at_CONSOLE (output (obj p)) then map toConsole (drained p) else []);
  inv_close : isCloseEngine (obj p) = true -> isEngineReady (obj p) = true;
  inv_ready : isEngineReady (obj p) = true -> worker p <> WNone;
  inv_join : dtor p = DJoin -> isCloseEngine (obj p) = true;
  inv_signal : signalled p = true -> worker p = WWait;
  inv_exit : worker p = WExit ->
             isCloseEngine (obj p) = true /\ logReadBuffer (obj p) = []
}.

End Invariant.

(** ** Sample runs

    Executions of the sample process and the states they lead to. *)

(** The sample handler after a first, successful [init]. *)
Definition sample_inited : Env (list string) * LogHandler :=
  Eval vm_compute in
    match init Sample.lib Sample.writable Sample.now Sample.env0 newHandler with
    | Returns r => r
    | _ => (Sample.env0, newHandler)
    end.

(** The sample handler sent to a nested directory of a file system that
    refuses to create it, and what [init] leaves behind there. *)
Definition sample_nested : LogHandler :=
  setLogFile Sample.lib "./log/log/log.log" newHandler.

Definition sample_failed : Env (list string) * LogHandler :=
  Eval vm_compute in
    match init Sample.lib Sample.readonly Sample.now Sample.env0 sample_nested with
    | Throws _ r => r
    | _ => (Sample.env0, newHandler)
    end.

(** Handlers whose log directory is a regular file that may be written,
    a write-protected regular file, a new directory inside a
    write-protected one, and a new directory of the working directory. *)
Definition sample_on_file : LogHandler :=
  setLogFile Sample.lib "notes.txt/app.log" newHandler.

Definition sample_on_locked_file : LogHandler :=
  setLogFile Sample.lib "locked.txt/app.log" newHandler.

Definition sample_in_protected : LogHandler :=
  setLogFile Sample.lib "ro/logs/app.log" newHandler.

Definition sample_new_dir : LogHandler :=
  setLogFile Sample.lib "logs/app.log" newHandler.

(** A run of the sample process: [init] is called and returns, the output
    thread has not run yet. *)
Definition run_init_only : list label := [LInitSpawn; LInitLocked Sample.now].

(** A run of the sample process up to the destructor's [join]. *)
Definition run_to_join : list label :=
  [LInitSpawn; LInitLocked Sample.now; LDtorEnter; LAnnounce; LDtorWake].

Definition state_at_join : Process (list string) :=
  Eval vm_compute in
    match run Sample.lib Sample.writable run_to_join (start ["."%string]) with
    | Some p => p
    | None => start []
    end.

(** A run of the sample process in which two calls of [log] reach the
    read buffer in the order opposite to the one in which they formatted
    their record, and which goes on to the drain, the destructor and the
    exit of the output thread. *)
Definition run_two_records : list label :=
  [LInitSpawn; LInitLocked Sample.now; LAnnounce; LEnter;
   LLogFormat Info "first" "test.cpp" "main" 12;
   LLogFormat Warn "second" "test.cpp" "main" 13;
   LLogAppend 1; LLogAppend 0;
   LWake TimedOut Sample.now; LDrain; LDrain; LFlush;
   LAnnounce; LEnter; LDtorEnter; LWake TimedOut Sample.now].

Definition state_two_records : Process (list string) :=
  Eval vm_compute in
    match run Sample.lib Sample.writable run_two_records (start ["."%string]) with
    | Some p => p
    | None => start []
    end.

Definition line_first : string :=
  ("INFO -> [test.cpp::main::12] Sun Sep 20 09:32:42 2015 >> first" ++ nl)%string.

Definition line_second : string :=
  ("WARN -> [test.cpp::main::13] Sun Sep 20 09:32:42 2015 >> second" ++ nl)%string.

(** A run of the sample process with the threshold set to 1: [init]
    returns and one record is logged at once, before the output thread has
    come to its first wait; then the output thread runs up to
    [wait_for]. *)
Definition run_early_log : list label :=
  [LSetMaxBufferSize 1; LInitSpawn; LInitLocked Sample.now;
   LLogFormat Info "first" "test.cpp" "main" 12; LLogAppend 0].

Definition state_early_log : Process (list string) :=
  Eval vm_compute in
    match run Sample.lib Sample.writable run_early_log (start ["."%string]) with
    | Some p => p
    | None => start []
    end.

Definition state_after_early_log : Process (list string) :=
  Eval vm_compute in
    match run Sample.lib Sample.writable [LAnnounce; LEnter] state_early_log with
    | Some p => p
    | None => start []
    end.

(** The sample process with the threshold set to 2, the output thread
    inside [wait_for], one record in the read buffer and a second call of
    [log] about to append. *)
Definition run_to_threshold : list label :=
  [LSetMaxBufferSize 2; LInitSpawn; LInitLocked Sample.now; LAnnounce; LEnter;
   LLogFormat Info "first" "test.cpp" "main" 12; LLogAppend 0;
   LLogFormat Warn "second" "test.cpp" "main" 13].

Definition state_at_threshold : Process (list string) :=
  Eval vm_compute in
    match run Sample.lib Sample.writable run_to_threshold (start ["."%string]) with
    | Some p => p
    | None => start []
    end.

(** ** Further notions used by the properties *)

(** The configuration members of the handler. *)
Definition configuration (s : LogHandler)
  : OutputMap * string * string * Level * N * N :=
  (output s, logDir s, logFile s, logLevel s, flushFrequency s, maxBufferSize s).

(** The members that carry the life cycle, the cached time and the
    records. *)
Definition lifecycle (s : LogHandler)
  : bool * bool * bool * bool * string * list OutputEntity * list OutputEntity :=
  (isEngineReady s, isCloseEngine s, isStop s, outputThread s, currentTime s,
   logReadBuffer s, logWriteBuffer s).

(** The arguments of one call of [log]. *)
Record LogCall : Type := {
  call_level : Level;
  call_msg : string;
  call_file : string;
  call_func : string;
  call_line : N
}.

(** Calls of [log] made one after the other; the sequence ends at the
    first call that throws. *)
Fixpoint log_calls (lib : LoggingLib) (calls : list LogCall) (s : LogHandler)
  : outcome LogHandler :=
  match calls with
  | [] => Returns s
  | c :: rest =>
      match log lib (call_level c) (call_msg c) (call_file c) (call_func c)
                (call_line c) s with
      | Returns (s', _) => log_calls lib rest s'
      | Throws x (s', _) => Throws x s'
      | Terminates => Terminates
      end
  end.

(** [s] holds no byte [c]. *)
Fixpoint no_char (c : ascii) (s : string) : bool :=
  match s with
  | EmptyString => true
  | String x r => negb (Ascii.eqb x c) && no_char c r
  end.

(** The records [formatOutput] can produce. *)
Definition rendered (lib : LoggingLib) (entity : OutputEntity) : Prop :=
  exists level msg file func line s,
    entity = formatOutput lib level msg file func line s.

(** Three calls of [log], the second below the default minimum level. *)
Definition sample_calls : list LogCall :=
  [ {| call_level := Warn; call_msg := "Warning Test"; call_file := "test.cpp";
       call_func := "whiteBox"; call_line := 39 |};
    {| call_level := Debug; call_msg := "detail"; call_file := "test.cpp";
       call_func := "whiteBox"; call_line := 40 |};
    {| call_level := Error; call_msg := "Test 0"; call_file := "test.cpp";
       call_func := "whiteBox"; call_line := 41 |} ].

(** A stopped engine has printed nothing, has no file attached and its
    output thread, if there is one, is not in the drain loop. *)
Definition stopped_idle {World : Type} (p : Process World) : Prop :=
  isStop (obj p) = true ->
  cout (env p) = [] /\ cout_at_init p = []
  /\ logStream (obj p) = Ofstream.closed
  /\ worker p <> WDrain.

(** The returns of [wait_for] among the steps of a run. *)
Definition is_wake (l : label) : bool :=
  match l with LWake _ _ => true | _ => false end.

(** Calls made on a handler that is never initialised. *)
Definition run_before_init : list label :=
  [LSetOutput CONSOLE false; LSetMaxBufferSize 1;
   LLogFormat Warn "Warning Test" "test.cpp" "whiteBox" 39; LLogAppend 0;
   LDtorEnter; LDtorWake].

Definition state_before_init : Process (list string) :=
  Eval vm_compute in
    match run Sample.lib Sample.writable run_before_init (start ["."%string]) with
    | Some p => p
    | None => start []
    end.

(** Configuration calls made after [init], at the destructor's [join]. *)
Definition run_reconfigure : list label :=
  [LSetOutput CONSOLE false; LSetLogFile "./log/log/log.log";
   LSetLogLevel Debug; LSetFlushFrequency 1000; LSetMaxBufferSize 1].

Definition state_reconfigured : Process (list string) :=
  Eval vm_compute in
    match run Sample.lib Sample.writable run_reconfigure state_at_join with
    | Some p => p
    | None => start []
    end.

(** The sample process with two records in the read buffer and the
    output thread inside [wait_for]. *)
Definition run_buffered : list label :=
  [LInitSpawn; LInitLocked Sample.now; LAnnounce; LEnter;
   LLogFormat Info "first" "test.cpp" "main" 12;
   LLogFormat Warn "second" "test.cpp" "main" 13;
   LLogAppend 1; LLogAppend 0].

Definition state_buffered : Process (list string) :=
  Eval vm_compute in
    match run Sample.lib Sample.writable run_buffered (start ["."%string]) with
    | Some p => p
    | None => start []
    end.

(** The sample process with the file sink disabled before [init], after
    one record was drained. *)
Definition run_console_only : list label :=
  [LSetOutput FILE false; LInitSpawn; LInitLocked Sample.now; LAnnounce; LEnter;
   LLogFormat Error "Test 0" "test.cpp" "whiteBox" 40; LLogAppend 0;
   LWake TimedOut Sample.now; LDrain; LFlush].

Definition state_console_only : Process (list string) :=
  Eval vm_compute in
    match run Sample.lib Sample.writable run_console_only (start ["."%string]) with
    | Some p => p
    | None => start []
    end.

(** * Properties *)

(** ** Byte strings *)

Module CStringFacts.

Local Open Scope string_scope.

Lemma c_str_no_nul s : no_nul s = true -> c_str s = s.
Proof.
  induction s as [|c r IH]; simpl; intros H; [reflexivity|].
  apply andb_true_iff in H. destruct H as [Hc Hr].
  destruct (Ascii.eqb c NUL); [discriminate|].
  now rewrite IH.
Qed.

Lemma take_length_le n s : String.length (take n s) <= n.
Proof.
  revert s. induction n as [|n IH]; intros [|c r]; simpl; try lia.
  specialize (IH r). lia.
Qed.

Lemma take_all n s : String.length s <= n -> take n s = s.
Proof.
  revert s. induction n as [|n IH]; intros [|c r]; simpl; intros H;
    try reflexivity; try lia.
  rewrite IH; [reflexivity|lia].
Qed.

Lemma take_length_cut n s : n <= String.length s -> String.length (take n s) = n.
Proof.
  revert s. induction n as [|n IH]; intros [|c r]; simpl; intros H;
    try reflexivity; try lia.
  rewrite IH; [reflexivity|lia].
Qed.

(** Truncation keeps a prefix of the text. *)
Lemma take_prefix n s : exists rest, s = take n s ++ rest.
Proof.
  revert s. induction n as [|n IH]; intros s.
  - exists s. destruct s; reflexivity.
  - destruct s as [|c r]; [exists EmptyString; reflexivity|].
    destruct (IH r) as [rest Hrest]. exists rest. simpl. now rewrite <- Hrest.
Qed.

Lemma length_append a b :
  String.length (a ++ b) = String.length a + String.length b.
Proof. induction a as [|c a IH]; simpl; [reflexivity|now rewrite IH]. Qed.

Lemma append_nil_r a : a ++ EmptyString = a.
Proof. induction a as [|c a IH]; simpl; [reflexivity|now rewrite IH]. Qed.

Lemma append_assoc a b c : (a ++ b) ++ c = a ++ (b ++ c).
Proof. induction a as [|x a IH]; simpl; [reflexivity|now rewrite IH]. Qed.

(** A text that ends in a newline and is cut strictly short loses that
    newline: the kept part is followed by a remainder ending in it. *)
Lemma take_drops_last n body :
  n < String.length (body ++ nl) ->
  exists rest, body = take n (body ++ nl) ++ rest.
Proof.
  revert body. induction n as [|n IH]; intros body H.
  - exists body. destruct body; reflexivity.
  - destruct body as [|c r]; simpl in H; [lia|].
    destruct (IH r) as [rest Hrest]; [lia|].
    exists rest. simpl. now rewrite <- Hrest.
Qed.

End CStringFacts.
Import CStringFacts.

(** ** Rendering of a record ([formatOutput]) *)

Section Rendering.

Context (lib : LoggingLib).

Lemma rendering_spec_line level msg file func line s :
  no_nul (getLogLevel lib level) = true ->
  no_nul file = true -> no_nul func = true ->
  no_nul (currentTime s) = true -> no_nul msg = true ->
  rendering lib level msg file func line s
  = spec_line (getLogLevel lib level) file func line (currentTime s) msg.
Proof.
  intros Hl Hf Hfn Ht Hm. unfold rendering, spec_line.
  now rewrite !c_str_no_nul by assumption.
Qed.

(** The rendering is a body followed by the newline of the format. *)
Lemma rendering_ends_nl level msg file func line s :
  exists body, rendering lib level msg file func line s = (body ++ nl)%string.
Proof.
  unfold rendering.
  eexists. rewrite <- !append_assoc. reflexivity.
Qed.

Lemma toConsole_formatOutput level msg file func line s :
  toConsole (formatOutput lib level msg file func line s)
  = (color level ++ toFile (formatOutput lib level msg file func line s))%string.
Proof. reflexivity. Qed.

(** C9, as amended. For every record whose line
    [<LEVEL> -> [<sourceFile>::<function>::<line>] <timestamp> >> <message>]
    with its newline takes at most 299 bytes (the buffer of [MaxMsgSize]
    bytes less the terminator) and whose texts hold no NUL byte, the
    file form is exactly that line and the console form is that line
    after the colour of the level: blue, green, yellow and red
    (ESC[34m, ESC[32m, ESC[33m, ESC[31m) for Debug, Info, Warn and
    Error. *)
Theorem formatOutput_line_when_it_fits level msg file func line s :
  no_nul (getLogLevel lib level) = true ->
  no_nul file = true -> no_nul func = true ->
  no_nul (currentTime s) = true -> no_nul msg = true ->
  String.length
    (spec_line (getLogLevel lib level) file func line (currentTime s) msg)
    <= MaxMsgSize - 1 ->
  toFile (formatOutput lib level msg file func line s)
    = spec_line (getLogLevel lib level) file func line (currentTime s) msg
  /\ toConsole (formatOutput lib level msg file func line s)
    = (color level
         ++ spec_line (getLogLevel lib level) file func line (currentTime s) msg)%string
  /\ color Debug = String ESC "[34m" /\ color Info = String ESC "[32m"
  /\ color Warn = String ESC "[33m" /\ color Error = String ESC "[31m".
Proof.
  intros Hl Hf Hfn Ht Hm Hlen.
  assert (Hfile : toFile (formatOutput lib level msg file func line s)
                  = spec_line (getLogLevel lib level) file func line
                      (currentTime s) msg).
  { simpl. unfold snprintf.
    rewrite rendering_spec_line by assumption.
    now apply take_all. }
  split; [exact Hfile|].
  split; [rewrite toConsole_formatOutput; now rewrite Hfile|].
  repeat split.
Qed.

(** C10, as amended. The file form of every rendered record takes at
    most 300 bytes with its terminating NUL: it is the first 299 bytes of
    the formatted line. The console form is not within that bound: it is
    the colour code, of 5 bytes, followed by the file form, so it takes at
    most 305 bytes with its NUL, and more than 300 as soon as the line has
    295 bytes. A line that needs more than 300 bytes (newline and NUL
    included) is cut to 299 bytes without any error in both forms, and
    what is cut off includes its final newline; a line that fits is kept
    whole in both. *)
Theorem formatOutput_bounded_by_MaxMsgSize level msg file func line s :
  let full := rendering lib level msg file func line s in
  let out := formatOutput lib level msg file func line s in
  MaxMsgSize = 300
  /\ String.length (toFile out) + 1 <= 300
  /\ toFile out = take 299 full
  /\ toConsole out = (color level ++ toFile out)%string
  /\ String.length (toConsole out) = 5 + String.length (toFile out)
  /\ String.length (toConsole out) + 1 <= 305
  /\ (300 < String.length (toConsole out) + 1 <-> 295 <= String.length full)
  /\ (300 < String.length full + 1 ->
      String.length (toFile out) + 1 = 300
      /\ String.length (toConsole out) + 1 = 305
      /\ toFile out <> full
      /\ toConsole out <> (color level ++ full)%string
      /\ exists rest,
          full = (toFile out ++ rest ++ nl)%string
          /\ (color level ++ full
              = toConsole out ++ rest ++ nl)%string)
  /\ (String.length full + 1 <= 300 ->
      toFile out = full /\ toConsole out = (color level ++ full)%string).
Proof.
  intros full out.
  assert (Hout : toFile out = take 299 full) by reflexivity.
  assert (Hcon : toConsole out = (color level ++ toFile out)%string)
    by reflexivity.
  assert (Hcol : String.length (color level) = 5) by now destruct level.
  assert (Hlen5 : String.length (toConsole out) = 5 + String.length (toFile out))
    by (rewrite Hcon, length_append; lia).
  assert (Hle : String.length (toFile out) <= 299)
    by (rewrite Hout; apply take_length_le).
  split; [reflexivity|].
  split; [lia|].
  split; [exact Hout|].
  split; [exact Hcon|].
  split; [exact Hlen5|].
  split; [lia|].
  split.
  { destruct (Nat.le_gt_cases (String.length full) 299) as [Hfit|Hcut].
    - rewrite Hlen5, Hout, (take_all 299 full Hfit). lia.
    - rewrite Hlen5, Hout, (take_length_cut 299 full) by lia. lia. }
  split.
  - intros Hlong.
    assert (Hlen : String.length (toFile out) = 299).
    { rewrite Hout. apply take_length_cut. lia. }
    split; [lia|].
    split; [lia|].
    split; [intros Heq; rewrite Heq in Hlen; lia|].
    split.
    { intros Heq.
      assert (Hl : String.length (toConsole out)
                   = String.length (color level ++ full)%string)
        by now rewrite Heq.
      rewrite length_append in Hl. lia. }
    destruct (rendering_ends_nl level msg file func line s) as [body Hbody].
    fold full in Hbody.
    destruct (take_drops_last 299 body) as [rest Hrest].
    { rewrite <- Hbody. lia. }
    exists rest.
    assert (Hfull : full = (toFile out ++ rest ++ nl)%string).
    { rewrite Hout, Hbody, <- append_assoc. now rewrite <- Hrest. }
    split; [exact Hfull|].
    rewrite Hcon, append_assoc. now rewrite <- Hfull.
  - intros Hfit.
    assert (Hsame : toFile out = full) by (rewrite Hout; apply take_all; lia).
    split; [exact Hsame|]. now rewrite Hcon, Hsame.
Qed.

End Rendering.

(** On the sample line of the README. *)
Lemma formatOutput_line_when_it_fits_witness :
  toFile (formatOutput Sample.lib Info "Hello Gallon12.124300" "test.cpp" "main" 71
            (freshCurrentTime Sample.now newHandler))
  = ("INFO -> [test.cpp::main::71] Sun Sep 20 09:32:42 2015 >> Hello Gallon12.124300"
       ++ nl)%string.
Proof.
  apply (formatOutput_line_when_it_fits Sample.lib Info "Hello Gallon12.124300"
           "test.cpp" "main" 71 (freshCurrentTime Sample.now newHandler));
    try reflexivity.
  vm_compute. lia.
Defined.

(** C9 as stated fails: a message of 300 bytes gives a file form that is
    not the newline-terminated line of the specification (it is that line
    cut after 299 bytes). *)
Lemma formatOutput_long_message_is_cut :
  let msg := repeat_char "a"%char 300 in
  let s := freshCurrentTime Sample.now newHandler in
  toFile (formatOutput Sample.lib Info msg "test.cpp" "main" 71 s)
    <> spec_line "INFO" "test.cpp" "main" 71 (currentTime s) msg
  /\ String.length (toFile (formatOutput Sample.lib Info msg "test.cpp" "main" 71 s))
     = 299
  /\ String.length (spec_line "INFO" "test.cpp" "main" 71 (currentTime s) msg) = 358.
Proof.
  intros msg s.
  assert (H1 : String.length
                 (toFile (formatOutput Sample.lib Info msg "test.cpp" "main" 71 s))
               = 299) by (vm_compute; reflexivity).
  assert (H2 : String.length
                 (spec_line "INFO" "test.cpp" "main" 71 (currentTime s) msg) = 358)
    by (vm_compute; reflexivity).
  split; [|split; assumption].
  intros Heq. rewrite Heq in H1. rewrite H2 in H1. discriminate.
Qed.

(** C10 as stated fails for the console form: the record of the
    message of 300 bytes has a console form of 304 bytes, 305 with its
    NUL, and so has the record of a message of 241 bytes, whose line of
    299 bytes is kept whole. *)
Lemma formatOutput_console_form_exceeds_MaxMsgSize :
  let s := freshCurrentTime Sample.now newHandler in
  let cut := formatOutput Sample.lib Info (repeat_char "a"%char 300)
               "test.cpp" "main" 71 s in
  let whole := formatOutput Sample.lib Info (repeat_char "a"%char 241)
                 "test.cpp" "main" 71 s in
  String.length (toConsole cut) = 304
  /\ ~ String.length (toConsole cut) + 1 <= MaxMsgSize
  /\ toFile whole
     = spec_line "INFO" "test.cpp" "main" 71 (currentTime s)
         (repeat_char "a"%char 241)
  /\ String.length (toConsole whole) = 304
  /\ ~ String.length (toConsole whole) + 1 <= MaxMsgSize.
Proof.
  intros s cut whole.
  assert (H1 : String.length (toConsole cut) = 304) by (vm_compute; reflexivity).
  assert (H2 : String.length (toConsole whole) = 304) by (vm_compute; reflexivity).
  split; [exact H1|].
  split; [rewrite H1; unfold MaxMsgSize; lia|].
  split; [vm_compute; reflexivity|].
  split; [exact H2|].
  rewrite H2; unfold MaxMsgSize; lia.
Qed.

(** On the message of 300 bytes. *)
Lemma formatOutput_bounded_by_MaxMsgSize_witness :
  let msg := repeat_char "a"%char 300 in
  let s := freshCurrentTime Sample.now newHandler in
  300 < String.length (rendering Sample.lib Info msg "test.cpp" "main" 71 s) + 1
  /\ String.length (toFile (formatOutput Sample.lib Info msg "test.cpp" "main" 71 s)) + 1
     = 300
  /\ String.length (toConsole (formatOutput Sample.lib Info msg "test.cpp" "main" 71 s))
     + 1 = 305.
Proof.
  intros msg s.
  assert (Hlong : 300 < String.length
                          (rendering Sample.lib Info msg "test.cpp" "main" 71 s) + 1)
    by (vm_compute; lia).
  split; [exact Hlong|].
  pose proof (formatOutput_bounded_by_MaxMsgSize Sample.lib Info msg "test.cpp"
                "main" 71 s) as H.
  cbv zeta in H.
  destruct H as (_ & _ & _ & _ & _ & _ & _ & Hcut & _).
  destruct (Hcut Hlong) as (Hfile & Hcons & _).
  split; [exact Hfile|exact Hcons].
Defined.

(** ** Configuration ([setOutput] ... [setMaxBufferSize]) *)

(** C5. Called while the engine is not stopped ([isStop] is false), each
    of the five configuration functions returns without an error and
    leaves the whole object, hence every configuration member (the two
    sink flags, the directory, the file name, the minimum level, the
    flush period and the buffer threshold), as it was. *)
Theorem configuration_is_frozen_while_running
        (lib : LoggingLib) (o : Output) (isAllowed : bool) (logPath : string)
        (level : Level) (fre size : N) (s : LogHandler) :
  isStop s = false ->
  setOutput o isAllowed s = s
  /\ setLogFile lib logPath s = s
  /\ setLogLevel level s = s
  /\ setFlushFrequency fre s = s
  /\ setMaxBufferSize size s = s.
Proof.
  intros Hrun.
  unfold setOutput, setLogFile, setLogLevel, setFlushFrequency, setMaxBufferSize.
  rewrite Hrun. simpl. repeat split.
Qed.

Lemma configuration_is_frozen_while_running_witness :
  let s := with_isStop false newHandler in
  setOutput CONSOLE false s = s
  /\ setLogFile Sample.lib "./log/log/log.log" s = s
  /\ setLogLevel Error s = s
  /\ setFlushFrequency 1000 s = s
  /\ setMaxBufferSize 1 s = s.
Proof.
  intros s.
  apply (configuration_is_frozen_while_running Sample.lib CONSOLE false
           "./log/log/log.log" Error 1000 1 s).
  reflexivity.
Defined.

(** ** [log] before [init] *)

(** C3 as stated fails: on a handler that was never initialised and whose
    minimum level is Error, a Debug call returns normally, with nothing
    thrown and nothing stored. *)
Lemma log_below_level_before_init_is_silent :
  let s := setLogLevel Error newHandler in
  isStop s = true
  /\ log Sample.lib Debug "Log test" "test.cpp" "main" 12 s = Returns (s, false).
Proof. split; reflexivity. Qed.

(** C3, as amended. While the engine is still stopped, a call to [log]
    whose level is not below the minimum level throws
    [std::logic_error("logging handler haven't been inited")] whatever the
    message and the source location, and leaves the handler untouched; a
    call whose level is below the minimum level returns at once, before
    any check of the state. *)
Theorem log_before_init_throws
        (lib : LoggingLib) (level : Level) (msg file func : string) (line : N)
        (s : LogHandler) :
  isStop s = true ->
  (level_lt level (logLevel s) = false ->
   log lib level msg file func line s
   = Throws (logic_error "logging handler haven't been inited") (s, false))
  /\ (level_lt level (logLevel s) = true ->
      log lib level msg file func line s = Returns (s, false)).
Proof.
  intros Hstop. unfold log, log_locked.
  split; intros Hlvl; rewrite Hlvl; [rewrite Hstop|]; reflexivity.
Qed.

Lemma log_before_init_throws_witness :
  log Sample.lib Warn "Warning Test" "test.cpp" "whiteBox" 39 newHandler
  = Throws (logic_error "logging handler haven't been inited") (newHandler, false).
Proof.
  apply (log_before_init_throws Sample.lib Warn "Warning Test" "test.cpp"
           "whiteBox" 39 newHandler); reflexivity.
Defined.

(** ** [init] *)

Section Init.

Context (lib : LoggingLib) {World : Type} (os : Posix World).

Lemma with_logStream_same s : with_logStream (logStream s) s = s.
Proof. now destruct s. Qed.

(** [openLogStream] changes the stream and nothing else of the
    object. *)
Lemma openLogStream_obj e s :
  match openLogStream lib os e s with
  | Returns (_, s') =>
      exists ok,
        s' = with_logStream
               (Ofstream.open ok (Ofstream.close (logStream s))) s
  | Throws x (_, s') =>
      (x = cannot_create \/ x = directory_error)
      /\ s' = with_logStream (Ofstream.close (logStream s)) s
  | Terminates => False
  end.
Proof.
  unfold openLogStream.
  set (s1 := if Ofstream.is_open (logStream s)
             then with_logStream (Ofstream.close (logStream s)) s else s).
  assert (Hs1 : s1 = with_logStream (Ofstream.close (logStream s)) s).
  { unfold s1, Ofstream.close.
    destruct (Ofstream.is_open (logStream s)); [reflexivity|].
    now rewrite with_logStream_same. }
  assert (Hcd : forall n idx e0,
             match snd (createDirs os (logDir s1) n idx e0) with
             | Some x => x = cannot_create \/ x = directory_error
             | None => True
             end).
  { induction n as [|n IH]; intros idx e0; simpl; [exact I|].
    destruct (String.get idx (logDir s1)) as [c|]; [|exact I].
    destruct (turn_dir (logDir s1) idx c) as [dir|]; [|apply IH].
    destruct (sys_stat os (fs e0) (c_str dir)) as [[|]|].
    - apply IH.
    - simpl. now right.
    - destruct (sys_mkdir os (fs e0) (c_str dir)) as [w'|].
      + destruct (unset_isdir os idx); [apply IH|simpl; now right].
      + simpl. now left. }
  destruct (negb (sys_access os (fs e) (c_str (logDir s1)) F_OK)
            || negb (sys_access os (fs e) (c_str (logDir s1)) W_OK)).
  - specialize (Hcd (String.length (logDir s1)) 0 e).
    destruct (createDirs os (logDir s1) (String.length (logDir s1)) 0 e)
      as [e1 [x|]]; simpl in Hcd.
    + split; assumption.
    + destruct (sys_open_app os (fs e1) _);
        rewrite Hs1; [exists true|exists false]; destruct s; reflexivity.
  - destruct (sys_open_app os (fs e) _);
      rewrite Hs1; [exists true|exists false]; destruct s; reflexivity.
Qed.

(** Whatever way [init] comes back to its caller, the thread object is
    joinable and [isStop] is cleared. *)
Lemma init_comes_back ctime e s :
  match init lib os ctime e s with
  | Returns (_, s') => outputThread s' = true /\ isStop s' = false
  | Throws x (_, s') =>
      (x = cannot_create \/ x = directory_error)
      /\ at_FILE (output s) = true
      /\ outputThread s' = true /\ isStop s' = false
      /\ Ofstream.is_open (logStream s') = false
      /\ logReadBuffer s' = logReadBuffer s
  | Terminates => outputThread s = true
  end.
Proof.
  unfold init, init_spawn.
  destruct (outputThread s) eqn:Hthr; [reflexivity|].
  unfold init_locked.
  set (s2 := freshCurrentTime ctime (with_isStop false (with_outputThread true s))).
  destruct (at_ (output s2) FILE) eqn:Hfile; [|split; reflexivity].
  pose proof (openLogStream_obj e s2) as H.
  destruct (openLogStream lib os e s2) as [[e' s']|x [e' s']|].
  - destruct H as [ok ->]. split; reflexivity.
  - destruct H as [Hx ->]. split; [exact Hx|].
    split; [exact Hfile|].
    repeat split.
    simpl. unfold Ofstream.close.
    destruct (Ofstream.is_open (logStream s)) eqn:Ho; [reflexivity|exact Ho].
  - contradiction.
Qed.

(** C2, as amended. [init] has no test for a second call and reports
    nothing to its caller: once [init] has come back, by a return or by
    an exception, a further call reaches the assignment to the still
    joinable [outputThread], which ends the process by
    [std::terminate]. *)
Theorem second_init_terminates ctime1 ctime2 e s e1 s1 :
  (init lib os ctime1 e s = Returns (e1, s1)
   \/ exists x, init lib os ctime1 e s = Throws x (e1, s1)) ->
  init lib os ctime2 e1 s1 = Terminates.
Proof.
  intros H.
  assert (Hthr : outputThread s1 = true).
  { pose proof (init_comes_back ctime1 e s) as Hi.
    destruct H as [H|[x H]]; rewrite H in Hi.
    - apply Hi.
    - apply Hi. }
  unfold init, init_spawn. now rewrite Hthr.
Qed.

(** The directory loop prints on [cout] only when it gives up on a
    creation, and then the directory it could not create. *)
Lemma createDirs_cout (dirname : string) (n : nat) :
  forall idx (e : Env World),
    match createDirs os dirname n idx e with
    | (e', Some x) =>
        (x = cannot_create
         /\ exists dir,
             ((exists k, dir = String.substring 0 k dirname) \/ dir = dirname)
             /\ cout e' = cout e ++ [dir; nl]
             /\ sys_stat os (fs e') (c_str dir) = None
             /\ sys_mkdir os (fs e') (c_str dir) = None)
        \/ (x = directory_error /\ cout e' = cout e)
    | (e', None) => cout e' = cout e
    end.
Proof.
  induction n as [|n IH]; intros idx e; simpl; [reflexivity|].
  destruct (String.get idx dirname) as [c|]; [|reflexivity].
  assert (Hdir :
            forall dir,
              turn_dir dirname idx c = Some dir ->
              (exists k, dir = String.substring 0 k dirname) \/ dir = dirname).
  { intros dir. unfold turn_dir. destruct (Ascii.eqb c "/"%char).
    - intros H. injection H as <-. left. now exists idx.
    - destruct (idx + 1 =? String.length dirname); [|discriminate].
      intros H. injection H as <-. now right. }
  destruct (turn_dir dirname idx c) as [dir|]; [|apply IH].
  specialize (Hdir dir eq_refl).
  destruct (sys_stat os (fs e) (c_str dir)) as [[|]|] eqn:Hstat.
  - apply IH.
  - right. split; reflexivity.
  - destruct (sys_mkdir os (fs e) (c_str dir)) as [w'|] eqn:Hmk.
    + destruct (unset_isdir os idx).
      * apply (IH (idx + 1) {| fs := w'; cout := cout e |}).
      * right. split; reflexivity.
    + left. split; [reflexivity|]. exists dir. simpl. repeat split; assumption.
Qed.

(** Reading a string by index. *)
Lemma get_none_le (s : string) :
  forall i j, String.get i s = None -> i <= j -> String.get j s = None.
Proof.
  induction s as [|c s IH]; intros i j Hi Hij; [reflexivity|].
  destruct i as [|i]; [discriminate|].
  destruct j as [|j]; [lia|].
  simpl in *. apply (IH i); [assumption|lia].
Qed.

Lemma get_some_lt (s : string) :
  forall i c, String.get i s = Some c -> i < String.length s.
Proof.
  induction s as [|a s IH]; intros i c Hi; [discriminate|].
  destruct i as [|i]; simpl in *; [lia|].
  specialize (IH i c Hi). lia.
Qed.

(** One turn of the directory loop. *)
Lemma createDirs_S dirname n idx (e : Env World) :
  createDirs os dirname (S n) idx e
  = match String.get idx dirname with
    | None => (e, None)
    | Some curChar =>
        match turn_dir dirname idx curChar with
        | None => createDirs os dirname n (idx + 1) e
        | Some dir =>
            match sys_stat os (fs e) (c_str dir) with
            | Some isdir =>
                if isdir then createDirs os dirname n (idx + 1) e
                else (e, Some directory_error)
            | None =>
                match sys_mkdir os (fs e) (c_str dir) with
                | None =>
                    ({| fs := fs e; cout := cout e ++ [dir; nl] |},
                     Some cannot_create)
                | Some w' =>
                    if unset_isdir os idx
                    then createDirs os dirname n (idx + 1)
                           {| fs := w'; cout := cout e |}
                    else ({| fs := w'; cout := cout e |}, Some directory_error)
                end
            end
        end
    end.
Proof. reflexivity. Qed.

Lemma createDirs_past_end dirname n idx (e : Env World) :
  String.get idx dirname = None -> createDirs os dirname n idx e = (e, None).
Proof.
  intros Hget. destruct n; [reflexivity|]. now rewrite createDirs_S, Hget.
Qed.

(** The loop over [n + m] characters is the loop over the first [n],
    followed, when that raised nothing, by the loop over the next [m]. *)
Lemma createDirs_app dirname n m :
  forall idx (e : Env World),
    createDirs os dirname (n + m) idx e
    = match createDirs os dirname n idx e with
      | (e1, None) => createDirs os dirname m (idx + n) e1
      | (e1, Some x) => (e1, Some x)
      end.
Proof.
  induction n as [|n IH]; intros idx e.
  - simpl. now rewrite Nat.add_0_r.
  - change (S n + m) with (S (n + m)).
    rewrite !createDirs_S.
    replace (idx + S n) with (idx + 1 + n) by lia.
    destruct (String.get idx dirname) as [c|] eqn:Hget.
    + destruct (turn_dir dirname idx c) as [dir|]; [|apply IH].
      destruct (sys_stat os (fs e) (c_str dir)) as [[|]|];
        [apply IH|reflexivity|].
      destruct (sys_mkdir os (fs e) (c_str dir)) as [w'|]; [|reflexivity].
      destruct (unset_isdir os idx); [apply IH|reflexivity].
    + symmetry. apply createDirs_past_end.
      apply (get_none_le dirname idx); [assumption|lia].
Qed.

(** [init] on a handler whose thread is not started and whose file sink
    is enabled, step by step: the stream is closed, the directories are
    walked when [access] fails, and the file is opened when the walk
    raised nothing. *)
Lemma init_with_file_sink ctime e s :
  outputThread s = false ->
  at_FILE (output s) = true ->
  let s1 := with_logStream (Ofstream.close (logStream s))
              (freshCurrentTime ctime
                 (with_isStop false (with_outputThread true s))) in
  init lib os ctime e s
  = let (e1, thrown) :=
      if negb (sys_access os (fs e) (c_str (logDir s)) F_OK)
         || negb (sys_access os (fs e) (c_str (logDir s)) W_OK)
      then createDirs os (logDir s) (String.length (logDir s)) 0 e
      else (e, None) in
    match thrown with
    | Some x => Throws x (e1, s1)
    | None =>
        match sys_open_app os (fs e1)
                (c_str (dirAndFileToPath lib (logDir s) (logFile s))) with
        | Some w' =>
            Returns ({| fs := w'; cout := cout e1 |},
                     with_logStream (Ofstream.open true (logStream s1)) s1)
        | None =>
            Returns (e1, with_logStream (Ofstream.open false (logStream s1)) s1)
        end
    end.
Proof.
  intros Hthr Hfile s1.
  unfold init, init_spawn. rewrite Hthr.
  unfold init_locked.
  set (s2 := freshCurrentTime ctime (with_isStop false (with_outputThread true s))).
  assert (Hf2 : at_ (output s2) FILE = true) by exact Hfile.
  rewrite Hf2. unfold openLogStream.
  assert (Hs1 : (if Ofstream.is_open (logStream s2)
                 then with_logStream (Ofstream.close (logStream s2)) s2
                 else s2) = s1).
  { unfold s1. fold s2. unfold Ofstream.close.
    replace (logStream s) with (logStream s2) by reflexivity.
    destruct (Ofstream.is_open (logStream s2)); [reflexivity|].
    now rewrite with_logStream_same. }
  rewrite Hs1. reflexivity.
Qed.

(** [init] throws only out of the directory walk, which it enters only
    when [access] fails. *)
Lemma init_throws_only_after_access_fails ctime e s x e' s' :
  init lib os ctime e s = Throws x (e', s') ->
  sys_access os (fs e) (c_str (logDir s)) F_OK = false
  \/ sys_access os (fs e) (c_str (logDir s)) W_OK = false.
Proof.
  intros Hinit.
  destruct (outputThread s) eqn:Hthr.
  { unfold init, init_spawn in Hinit. rewrite Hthr in Hinit. discriminate. }
  destruct (at_FILE (output s)) eqn:Hfile.
  - rewrite (init_with_file_sink ctime e s Hthr Hfile) in Hinit.
    destruct (sys_access os (fs e) (c_str (logDir s)) F_OK); [|now left].
    destruct (sys_access os (fs e) (c_str (logDir s)) W_OK); [|now right].
    simpl in Hinit.
    destruct (sys_open_app os (fs e) _); discriminate.
  - unfold init, init_spawn in Hinit. rewrite Hthr in Hinit.
    unfold init_locked in Hinit.
    assert (Hf2 : at_ (output (freshCurrentTime ctime
                                 (with_isStop false (with_outputThread true s))))
                    FILE = false) by exact Hfile.
    rewrite Hf2 in Hinit. discriminate.
Qed.

(** C4, as amended. [init] is not atomic on error: it has started the
    output thread and cleared [isStop] before it calls [openLogStream],
    and it undoes neither.

    First part: an exception leaves [init] at once, it is one of the two
    [std::runtime_error] of the directory walk, which is entered only
    with the file sink enabled and when [access] fails for [F_OK] or
    [W_OK]; the engine is then running (thread started, [isStop]
    cleared) with no file attached, and accepts records.

    Second part: in the order of the walk (the part of [logDir] before
    each slash and, at its last position when that is no slash, [logDir]
    itself), the first directory that [stat] does not find and [mkdir]
    cannot create makes [init] print that directory and throw "Cannot
    create directory"; the first one that [stat] finds not to be a
    directory, or whose mode reads as no directory from the
    [struct stat] left unwritten after [mkdir] has created it, makes
    [init] throw "Directory error". This is stated for the first 65536
    positions of [logDir], the range of the [unsigned short] index of
    the loop.

    Third part: there is no other failure. When [access] succeeds, even
    for a [logDir] that is no directory, when [logDir] is empty (the
    default), or when every directory of a [logDir] of fewer than 65536
    bytes passes, [init] returns normally with the engine running,
    having printed nothing; the stream is open exactly when the system
    opened the file, so a file that cannot be opened leaves the engine
    with no file attached and no error. *)
Theorem failed_init_leaves_engine_running ctime e s :
  (forall x e' s',
      init lib os ctime e s = Throws x (e', s') ->
      (x = runtime_error "Cannot create directory"
       \/ x = runtime_error "Directory error")
      /\ at_FILE (output s) = true
      /\ (sys_access os (fs e) (c_str (logDir s)) F_OK = false
          \/ sys_access os (fs e) (c_str (logDir s)) W_OK = false)
      /\ isStop s' = false
      /\ outputThread s' = true
      /\ Ofstream.is_open (logStream s') = false
      /\ forall entity,
          exists s'' notified,
            log_locked entity s' = Returns (s'', notified)
            /\ logReadBuffer s'' = logReadBuffer s ++ [entity])
  /\ (outputThread s = false ->
      at_FILE (output s) = true ->
      sys_access os (fs e) (c_str (logDir s)) F_OK = false
      \/ sys_access os (fs e) (c_str (logDir s)) W_OK = false ->
      forall idx curChar dir e1,
        (N.of_nat idx < 65536)%N ->
        createDirs os (logDir s) idx 0 e = (e1, None) ->
        String.get idx (logDir s) = Some curChar ->
        turn_dir (logDir s) idx curChar = Some dir ->
        (sys_stat os (fs e1) (c_str dir) = None ->
         sys_mkdir os (fs e1) (c_str dir) = None ->
         exists s',
           init lib os ctime e s
           = Throws (runtime_error "Cannot create directory")
               ({| fs := fs e1; cout := cout e ++ [dir; nl] |}, s'))
        /\ (sys_stat os (fs e1) (c_str dir) = Some false ->
            exists s',
              init lib os ctime e s
              = Throws (runtime_error "Directory error")
                  ({| fs := fs e1; cout := cout e |}, s'))
        /\ (forall w',
               sys_stat os (fs e1) (c_str dir) = None ->
               sys_mkdir os (fs e1) (c_str dir) = Some w' ->
               unset_isdir os idx = false ->
               exists s',
                 init lib os ctime e s
                 = Throws (runtime_error "Directory error")
                     ({| fs := w'; cout := cout e |}, s')))
  /\ (outputThread s = false ->
      at_FILE (output s) = true ->
      forall e1,
        (sys_access os (fs e) (c_str (logDir s)) F_OK = true
         /\ sys_access os (fs e) (c_str (logDir s)) W_OK = true
         /\ e1 = e)
        \/ (logDir s = ""%string /\ e1 = e)
        \/ ((sys_access os (fs e) (c_str (logDir s)) F_OK = false
             \/ sys_access os (fs e) (c_str (logDir s)) W_OK = false)
            /\ (N.of_nat (String.length (logDir s)) < 65536)%N
            /\ createDirs os (logDir s) (String.length (logDir s)) 0 e
               = (e1, None)) ->
        exists e' s',
          init lib os ctime e s = Returns (e', s')
          /\ isStop s' = false
          /\ outputThread s' = true
          /\ cout e' = cout e
          /\ match sys_open_app os (fs e1)
                     (c_str (dirAndFileToPath lib (logDir s) (logFile s))) with
             | Some w' =>
                 fs e' = w' /\ Ofstream.is_open (logStream s') = true
             | None =>
                 fs e' = fs e1 /\ Ofstream.is_open (logStream s') = false
             end).
Proof.
  split; [|split].
  - intros x e' s' Hinit.
    pose proof (init_throws_only_after_access_fails ctime e s x e' s' Hinit)
      as Hacc.
    pose proof (init_comes_back ctime e s) as Hi. rewrite Hinit in Hi.
    destruct Hi as (Hx & Hfile & Hthr & Hstop & Hopen & Hbuf).
    split; [assumption|]. split; [assumption|]. split; [assumption|].
    repeat (split; [assumption|]).
    intros entity. unfold log_locked. rewrite Hstop.
    eexists. eexists. split; [reflexivity|]. simpl. now rewrite Hbuf.
  - intros Hthr Hfile Hacc idx curChar dir e1 Hidx Hpre Hget Hdir.
    pose proof (init_with_file_sink ctime e s Hthr Hfile) as Hinit.
    cbv zeta in Hinit.
    assert (Hwalk : negb (sys_access os (fs e) (c_str (logDir s)) F_OK)
                    || negb (sys_access os (fs e) (c_str (logDir s)) W_OK)
                    = true).
    { destruct Hacc as [-> | ->]; [reflexivity|apply orb_true_r]. }
    rewrite Hwalk in Hinit.
    pose proof (get_some_lt _ _ _ Hget) as Hlt.
    replace (String.length (logDir s))
      with (idx + S (String.length (logDir s) - idx - 1)) in Hinit by lia.
    rewrite createDirs_app, Hpre in Hinit. simpl (0 + idx) in Hinit.
    rewrite createDirs_S, Hget, Hdir in Hinit.
    assert (Hcout : cout e1 = cout e).
    { pose proof (createDirs_cout (logDir s) idx 0 e) as Hc.
      now rewrite Hpre in Hc. }
    split; [|split].
    + intros Hstat Hmk. rewrite Hstat, Hmk, Hcout in Hinit.
      eexists. exact Hinit.
    + intros Hstat. rewrite Hstat in Hinit.
      eexists. rewrite Hinit. now destruct e1; simpl in *; subst.
    + intros w' Hstat Hmk Hun. rewrite Hstat, Hmk, Hun, Hcout in Hinit.
      eexists. exact Hinit.
  - intros Hthr Hfile e1 Hcase.
    pose proof (init_with_file_sink ctime e s Hthr Hfile) as Hinit.
    cbv zeta in Hinit.
    assert (Hwalk :
              (if negb (sys_access os (fs e) (c_str (logDir s)) F_OK)
                  || negb (sys_access os (fs e) (c_str (logDir s)) W_OK)
               then createDirs os (logDir s) (String.length (logDir s)) 0 e
               else (e, None)) = (e1, None)).
    { destruct Hcase as [(Hf & Hw & ->)|[(Hempty & ->)|(Hacc & _ & Hall)]].
      - rewrite Hf, Hw. reflexivity.
      - rewrite Hempty. simpl.
        destruct (negb (sys_access os (fs e) "" F_OK)
                  || negb (sys_access os (fs e) "" W_OK)); reflexivity.
      - destruct Hacc as [-> | ->]; [exact Hall|].
        rewrite orb_true_r. exact Hall. }
    rewrite Hwalk in Hinit.
    assert (Hcout : cout e1 = cout e).
    { destruct Hcase as [(_ & _ & ->)|[(_ & ->)|(_ & _ & Hall)]];
        [reflexivity|reflexivity|].
      pose proof (createDirs_cout (logDir s) (String.length (logDir s)) 0 e) as Hc.
      now rewrite Hall in Hc. }
    destruct (sys_open_app os (fs e1)
                (c_str (dirAndFileToPath lib (logDir s) (logFile s)))) as [w'|];
      eexists; eexists; (split; [exact Hinit|]);
      (split; [reflexivity|]); (split; [reflexivity|]);
      (split; [simpl; try assumption; reflexivity|]);
      (split; [reflexivity|]);
      simpl; unfold Ofstream.open, Ofstream.close;
      destruct (Ofstream.is_open (logStream s)) eqn:Ho; simpl;
      rewrite ?Ho; reflexivity.
Qed.

End Init.

(** C2 as stated fails: the second of two calls of [init] in a row does
    not come back to its caller with an error and the engine as it was;
    the process is terminated. *)
Lemma second_init_is_not_an_error :
  init Sample.lib Sample.writable Sample.now Sample.env0 newHandler
  = Returns sample_inited
  /\ init Sample.lib Sample.writable Sample.now (fst sample_inited) (snd sample_inited)
     = Terminates
  /\ forall x r,
      init Sample.lib Sample.writable Sample.now (fst sample_inited) (snd sample_inited)
      <> Throws x r.
Proof.
  split; [reflexivity|]. split; [reflexivity|].
  intros x r H. vm_compute in H. discriminate.
Qed.

Lemma second_init_terminates_witness :
  init Sample.lib Sample.writable Sample.now (fst sample_inited) (snd sample_inited)
  = Terminates.
Proof.
  apply (second_init_terminates Sample.lib Sample.writable Sample.now Sample.now
           Sample.env0 newHandler).
  left. reflexivity.
Defined.

(** C4 as stated fails: the failed [init] has changed the state of the
    engine, which was stopped before the call and is running, its thread
    started, after it. *)
Lemma failed_init_is_not_atomic :
  init Sample.lib Sample.readonly Sample.now Sample.env0 sample_nested
  = Throws (runtime_error "Cannot create directory") sample_failed
  /\ isStop sample_nested = true
  /\ outputThread sample_nested = false
  /\ isStop (snd sample_failed) = false
  /\ outputThread (snd sample_failed) = true.
Proof. repeat split. Qed.

(** On the sample file systems: a directory that cannot be created
    inside a write-protected one, a write-protected regular file as log
    directory, a directory that is created and then read as none from
    the unwritten [struct stat], a regular file that [access] accepts as
    log directory, where [init] returns with no file, the default
    directory where no file can be opened, and a directory that is
    created and passes. *)
Lemma failed_init_leaves_engine_running_witness :
  (init Sample.lib Sample.readonly Sample.now Sample.env0 sample_nested
   = Throws (runtime_error "Cannot create directory") sample_failed
   /\ isStop (snd sample_failed) = false
   /\ outputThread (snd sample_failed) = true)
  /\ (exists s',
        init Sample.lib (Sample.disk (fun _ => true)) Sample.now Sample.disk0
          sample_in_protected
        = Throws (runtime_error "Cannot create directory")
            ({| fs := fs Sample.disk0; cout := ["ro/logs"%string; nl] |}, s'))
  /\ (exists s',
        init Sample.lib (Sample.disk (fun _ => true)) Sample.now Sample.disk0
          sample_on_locked_file
        = Throws (runtime_error "Directory error") (Sample.disk0, s'))
  /\ (exists w' s',
        init Sample.lib (Sample.disk (fun _ => false)) Sample.now Sample.disk0
          sample_new_dir
        = Throws (runtime_error "Directory error") ({| fs := w'; cout := [] |}, s')
        /\ sys_stat (Sample.disk (fun _ => false)) w' "logs" = Some true)
  /\ (exists e' s',
        init Sample.lib (Sample.disk (fun _ => true)) Sample.now Sample.disk0
          sample_on_file
        = Returns (e', s')
        /\ isStop s' = false
        /\ Ofstream.is_open (logStream s') = false
        /\ e' = Sample.disk0)
  /\ (exists s',
        init Sample.lib Sample.readonly Sample.now Sample.env0 newHandler
        = Returns (Sample.env0, s')
        /\ isStop s' = false
        /\ Ofstream.is_open (logStream s') = false)
  /\ (exists e' s',
        init Sample.lib (Sample.disk (fun _ => true)) Sample.now Sample.disk0
          sample_new_dir
        = Returns (e', s')
        /\ Ofstream.is_open (logStream s') = true
        /\ sys_stat (Sample.disk (fun _ => true)) (fs e') "logs" = Some true).
Proof.
  split; [|split; [|split; [|split; [|split; [|split]]]]].
  - assert (H : init Sample.lib Sample.readonly Sample.now Sample.env0 sample_nested
                = Throws (runtime_error "Cannot create directory") sample_failed)
      by reflexivity.
    split; [exact H|].
    destruct (proj1 (failed_init_leaves_engine_running Sample.lib Sample.readonly
                       Sample.now Sample.env0 sample_nested)
                _ _ _ H) as (_ & _ & _ & Hstop & Hthr & _).
    split; assumption.
  - exact (proj1
             (proj1 (proj2 (failed_init_leaves_engine_running Sample.lib
                              (Sample.disk (fun _ => true)) Sample.now
                              Sample.disk0 sample_in_protected))
                eq_refl eq_refl (or_introl eq_refl)
                6 "s"%char "ro/logs"%string Sample.disk0
                eq_refl eq_refl eq_refl eq_refl)
             eq_refl eq_refl).
  - exact (proj1 (proj2
             (proj1 (proj2 (failed_init_leaves_engine_running Sample.lib
                              (Sample.disk (fun _ => true)) Sample.now
                              Sample.disk0 sample_on_locked_file))
                eq_refl eq_refl (or_intror eq_refl)
                9 "t"%char "locked.txt"%string Sample.disk0
                eq_refl eq_refl eq_refl eq_refl))
             eq_refl).
  - eexists.
    destruct (proj2 (proj2
               (proj1 (proj2 (failed_init_leaves_engine_running Sample.lib
                                (Sample.disk (fun _ => false)) Sample.now
                                Sample.disk0 sample_new_dir))
                  eq_refl eq_refl (or_introl eq_refl)
                  3 "s"%char "logs"%string Sample.disk0
                  eq_refl eq_refl eq_refl eq_refl))
               _ eq_refl eq_refl eq_refl) as [s' Hs'].
    exists s'. split; [exact Hs'|reflexivity].
  - destruct (proj2 (proj2 (failed_init_leaves_engine_running Sample.lib
                              (Sample.disk (fun _ => true)) Sample.now
                              Sample.disk0 sample_on_file))
                eq_refl eq_refl Sample.disk0
                (or_introl (conj eq_refl (conj eq_refl eq_refl))))
      as (e' & s' & Hinit & Hstop & _ & Hcout & Hopen).
    exists e', s'. split; [exact Hinit|]. split; [exact Hstop|].
    simpl in Hopen. destruct Hopen as [Hfs Hclosed].
    split; [exact Hclosed|].
    destruct e' as [w c]. simpl in *. now subst.
  - destruct (proj2 (proj2 (failed_init_leaves_engine_running Sample.lib
                              Sample.readonly Sample.now Sample.env0 newHandler))
                eq_refl eq_refl Sample.env0
                (or_intror (or_introl (conj eq_refl eq_refl))))
      as (e' & s' & Hinit & Hstop & _ & Hcout & Hopen).
    exists s'. simpl in Hopen. destruct Hopen as [Hfs Hclosed].
    split; [|split; [exact Hstop|exact Hclosed]].
    rewrite Hinit. destruct e' as [w c]. simpl in *. now subst.
  - destruct (proj2 (proj2 (failed_init_leaves_engine_running Sample.lib
                              (Sample.disk (fun _ => true)) Sample.now
                              Sample.disk0 sample_new_dir))
                eq_refl eq_refl
                {| fs := {| Sample.node_path := "logs"; Sample.node_is_dir := true;
                            Sample.node_writable := true |} :: fs Sample.disk0;
                   cout := [] |}
                (or_intror (or_intror
                   (conj (or_introl eq_refl) (conj eq_refl eq_refl)))))
      as (e' & s' & Hinit & _ & _ & _ & Hopen).
    exists e', s'. simpl in Hopen. destruct Hopen as [Hfs Hisopen].
    split; [exact Hinit|]. split; [exact Hisopen|].
    rewrite Hfs. reflexivity.
Defined.

(** ** The process: what holds in every state *)

Section EngineFacts.

Context (lib : LoggingLib) {World : Type} (os : Posix World).

Local Abbreviation P := (Process World).

Lemma Inv_start (w : World) : Inv (start w).
Proof.
  constructor; simpl; try reflexivity; try discriminate; auto.
Qed.

Lemma set_obj_same (p : P) : set_obj (obj p) p = p.
Proof. now destruct p. Qed.

Lemma history_empty (p : P) :
  Inv p -> isStop (obj p) = true ->
  drained p = [] /\ logWriteBuffer (obj p) = [] /\ logReadBuffer (obj p) = [].
Proof.
  intros HI Hstop.
  pose proof (inv_history p HI) as Hh.
  rewrite (inv_stopped p HI Hstop) in Hh.
  symmetry in Hh. apply app_eq_nil in Hh. destruct Hh as [Hd Hh].
  apply app_eq_nil in Hh. tauto.
Qed.

(** A change of the configuration of a stopped engine: the flags of the
    life cycle and the buffers stay, the stream is either kept or
    closed, and an open stream goes with an enabled file sink. *)
Lemma Inv_reconfigured (p : P) (s' : LogHandler) :
  Inv p ->
  isStop (obj p) = true ->
  isEngineReady s' = isEngineReady (obj p) ->
  isCloseEngine s' = isCloseEngine (obj p) ->
  isStop s' = isStop (obj p) ->
  outputThread s' = outputThread (obj p) ->
  logReadBuffer s' = logReadBuffer (obj p) ->
  logWriteBuffer s' = logWriteBuffer (obj p) ->
  (Ofstream.is_open (logStream s') = true ->
   at_FILE (output s') = true /\ logStream s' = logStream (obj p)) ->
  Inv (set_obj s' p).
Proof.
  intros HI Hstop Hr Hc Hs Ht Hrb Hwb Hstream.
  destruct (history_empty p HI Hstop) as (Hd & Hw & Hrd).
  destruct HI.
  constructor; simpl; rewrite ?Hr, ?Hc, ?Hs, ?Ht, ?Hrb, ?Hwb; auto.
  - intros Ho. apply Hstream, Ho.
  - intros Ho. destruct (Hstream Ho) as [_ Heq]. rewrite Heq in *. auto.
  - intros Ho. destruct (Hstream Ho) as [_ Heq]. rewrite Heq in *. auto.
  - rewrite inv_cout0, Hd. simpl.
    now destruct (at_CONSOLE (output s')), (at_CONSOLE (output (obj p))).
Qed.

Lemma close_not_open f : Ofstream.is_open (Ofstream.close f) = false.
Proof. unfold Ofstream.close. destruct (Ofstream.is_open f) eqn:H; simpl; auto. Qed.

Lemma Inv_setOutput (p : P) o b : Inv p -> Inv (set_obj (setOutput o b (obj p)) p).
Proof.
  intros HI. unfold setOutput.
  destruct (isStop (obj p)) eqn:Hstop; simpl; [|now rewrite set_obj_same].
  apply Inv_reconfigured; auto; destruct o; simpl;
    try (destruct (negb b && Ofstream.is_open (logStream (obj p))); reflexivity).
  - destruct b; simpl.
    + intros Ho. split; reflexivity.
    + destruct (Ofstream.is_open (logStream (obj p))) eqn:Ho; simpl.
      * rewrite close_not_open. discriminate.
      * rewrite Ho. discriminate.
  - intros Ho. split; [apply (inv_open p HI Ho)|reflexivity].
Qed.

Lemma Inv_setLogFile (p : P) path : Inv p -> Inv (set_obj (setLogFile lib path (obj p)) p).
Proof.
  intros HI. unfold setLogFile.
  destruct (isStop (obj p)) eqn:Hstop; simpl; [|now rewrite set_obj_same].
  destruct (pathToFile lib path _ _) as [d f].
  apply Inv_reconfigured; auto; simpl;
    try (destruct (Ofstream.is_open (logStream (obj p))); reflexivity).
  destruct (Ofstream.is_open (logStream (obj p))) eqn:Ho; simpl.
  - rewrite close_not_open. discriminate.
  - rewrite Ho. discriminate.
Qed.

Lemma Inv_setLogLevel (p : P) level : Inv p -> Inv (set_obj (setLogLevel level (obj p)) p).
Proof.
  intros HI. unfold setLogLevel.
  destruct (isStop (obj p)) eqn:Hstop; simpl; [|now rewrite set_obj_same].
  apply Inv_reconfigured; auto; simpl.
  intros Ho. split; [apply (inv_open p HI Ho)|reflexivity].
Qed.

Lemma Inv_setFlushFrequency (p : P) fre :
  Inv p -> Inv (set_obj (setFlushFrequency fre (obj p)) p).
Proof.
  intros HI. unfold setFlushFrequency.
  destruct (isStop (obj p)) eqn:Hstop; simpl; [|now rewrite set_obj_same].
  apply Inv_reconfigured; auto; simpl.
  intros Ho. split; [apply (inv_open p HI Ho)|reflexivity].
Qed.

Lemma Inv_setMaxBufferSize (p : P) size :
  Inv p -> Inv (set_obj (setMaxBufferSize size (obj p)) p).
Proof.
  intros HI. unfold setMaxBufferSize.
  destruct (isStop (obj p)) eqn:Hstop; simpl; [|now rewrite set_obj_same].
  apply Inv_reconfigured; auto; simpl.
  intros Ho. split; [apply (inv_open p HI Ho)|reflexivity].
Qed.

Lemma Inv_set_inflight (p : P) l : Inv p -> Inv (set_inflight l p).
Proof. intros []. constructor; simpl; auto. Qed.

Lemma Inv_set_terminated (p : P) : Inv p -> Inv (set_terminated p).
Proof. intros []. constructor; simpl; auto. Qed.

Lemma Inv_init_spawn (p : P) s :
  Inv p -> init_spawn (obj p) = Returns s ->
  Inv (set_init InitSpawned (cout_at_init p) (set_worker WTop false (set_obj s p))).
Proof.
  intros HI Hs. unfold init_spawn in Hs.
  destruct (outputThread (obj p)) eqn:Hthr; [discriminate|].
  injection Hs as <-.
  destruct (inv_thread p HI Hthr) as [Hw Hi].
  assert (Hnd : worker p <> WDrain) by (rewrite Hw; discriminate).
  destruct HI.
  constructor; simpl; auto; try discriminate.
Qed.

(** What the locked section of [init] does to the object: [isStop] is
    cleared, the time refreshed, and the stream replaced by one that, if
    open, is freshly opened for an enabled file sink. *)
Lemma init_locked_obj ctime e s :
  (Ofstream.is_open (logStream s) = true -> at_FILE (output s) = true) ->
  match init_locked lib os ctime e s with
  | Returns (_, s') | Throws _ (_, s') =>
      exists f,
        s' = with_logStream f (freshCurrentTime ctime (with_isStop false s))
        /\ (Ofstream.is_open f = true ->
            at_FILE (output s) = true
            /\ Ofstream.file f = [] /\ Ofstream.pending f = [])
  | Terminates => False
  end.
Proof.
  intros Hopen. unfold init_locked.
  set (s2 := freshCurrentTime ctime (with_isStop false s)).
  destruct (at_ (output s2) FILE) eqn:Hfile.
  - pose proof (openLogStream_obj lib os e s2) as H.
    destruct (openLogStream lib os e s2) as [[e' s']|x [e' s']|]; [| |exact H].
    + destruct H as [ok ->]. eexists. split; [reflexivity|].
      simpl. intros Ho. split; [exact Hfile|].
      unfold Ofstream.open in *. rewrite close_not_open in *.
      destruct ok; simpl in *; [split; reflexivity|].
      rewrite close_not_open in Ho. discriminate.
    + destruct H as [_ ->]. eexists. split; [reflexivity|].
      simpl. rewrite close_not_open. discriminate.
  - exists (logStream s). split; [now destruct s|].
    intros Ho. simpl in Hfile. rewrite (Hopen Ho) in Hfile. discriminate.
Qed.

Lemma Inv_init_locked (p : P) ctime s :
  Inv p -> initPc p = InitSpawned ->
  (exists f,
      s = with_logStream f (freshCurrentTime ctime (with_isStop false (obj p)))
      /\ (Ofstream.is_open f = true ->
          at_FILE (output (obj p)) = true
          /\ Ofstream.file f = [] /\ Ofstream.pending f = [])) ->
  forall i e',
    i = InitReturned \/ i = InitThrew ->
    Inv (set_init i (cout e') (set_env e' (set_obj s p))).
Proof.
  intros HI Hpc (f & -> & Hf) i e' Hi.
  assert (Hstop : isStop (obj p) = true) by (apply (inv_init p HI); now right).
  destruct (history_empty p HI Hstop) as (Hd & Hw & Hr).
  pose proof (inv_stopped p HI Hstop) as Ha.
  destruct HI.
  constructor; simpl; auto; try discriminate.
  - intros [Hx|Hx]; rewrite Hx in Hi; destruct Hi; discriminate.
  - intros Ht. destruct (inv_thread0 Ht) as [_ Hidle]. congruence.
  - intros Ho. apply Hf, Ho.
  - intros Ho. destruct (Hf Ho) as (_ & Hfile & Hpend).
    now rewrite Hfile, Hpend, Hd.
  - intros Ho _. apply Hf, Ho.
  - rewrite Hd. simpl. destruct (at_CONSOLE (output (obj p))); now rewrite app_nil_r.
Qed.

Lemma Inv_log_append (p : P) entity l :
  Inv p -> isStop (obj p) = false -> worker p <> WExit ->
  forall notified,
    Inv (set_worker (worker p) (signalled p || (notified && waiting (worker p)))
           (note_appended entity
              (set_obj (with_buffers (logReadBuffer (obj p) ++ [entity])
                          (logWriteBuffer (obj p)) (obj p))
                 (set_inflight l p)))).
Proof.
  intros HI Hrun Halive notified. destruct HI.
  constructor; simpl; auto; try (rewrite Hrun; discriminate); try contradiction.
  - rewrite inv_history0. now rewrite <- !app_assoc.
  - intros Hs. apply orb_true_iff in Hs. destruct Hs as [Hs|Hs]; [auto|].
    apply andb_true_iff in Hs. destruct Hs as [_ Hw].
    destruct (worker p); simpl in Hw; congruence.
Qed.

Lemma thread_started (p : P) :
  Inv p -> worker p <> WNone -> outputThread (obj p) = true.
Proof.
  intros HI Hw. destruct (outputThread (obj p)) eqn:Ht; [reflexivity|].
  destruct (inv_thread p HI Ht) as [Hn _]. contradiction.
Qed.

Lemma Inv_announce (p : P) :
  Inv p -> worker p = WTop ->
  Inv (set_worker WLock false (set_obj (announce (obj p)) p)).
Proof.
  intros HI Hw.
  assert (Ht : outputThread (obj p) = true)
    by (apply thread_started; [exact HI|rewrite Hw; discriminate]).
  assert (Hnd : worker p <> WDrain) by (rewrite Hw; discriminate).
  destruct HI. unfold announce.
  destruct (isEngineReady (obj p)) eqn:Hr; simpl;
    constructor; simpl; auto; try discriminate; try (rewrite Ht; discriminate).
Qed.

Lemma Inv_enter (p : P) :
  Inv p -> worker p = WLock -> Inv (set_worker (inner_test (obj p)) false p).
Proof.
  intros HI Hw.
  assert (Ht : outputThread (obj p) = true)
    by (apply thread_started; [exact HI|rewrite Hw; discriminate]).
  assert (Hnd : worker p <> WDrain) by (rewrite Hw; discriminate).
  pose proof (inv_write p HI Hnd) as Hwb.
  destruct HI. unfold inner_test. rewrite Hwb. simpl.
  constructor; simpl; auto; try discriminate; try (rewrite Ht; discriminate).
Qed.

Lemma is_empty_nil {A : Type} (l : list A) : is_empty l = true -> l = [].
Proof. destruct l; [reflexivity|discriminate]. Qed.

Lemma Inv_wake (p : P) ctime :
  Inv p -> worker p = WWait ->
  match after_wait ctime (obj p) with
  | Exit s => Inv (set_worker WExit false (set_obj s p))
  | Continue s => Inv (set_worker (inner_test s) false (set_obj s p))
  end.
Proof.
  intros HI Hw.
  assert (Ht : outputThread (obj p) = true)
    by (apply thread_started; [exact HI|rewrite Hw; discriminate]).
  assert (Hnd : worker p <> WDrain) by (rewrite Hw; discriminate).
  pose proof (inv_write p HI Hnd) as Hwb.
  pose proof (inv_history p HI) as Hh. rewrite Hwb in Hh. simpl in Hh.
  destruct HI. unfold after_wait. simpl.
  destruct (isCloseEngine (obj p) && is_empty (logReadBuffer (obj p))) eqn:Hx.
  - apply andb_true_iff in Hx. destruct Hx as [Hc He].
    apply is_empty_nil in He.
    constructor; simpl; auto; try discriminate; try (rewrite Ht; discriminate).
    rewrite Hwb, He. now rewrite He in Hh.
  - unfold inner_test. simpl.
    constructor; simpl; auto; try discriminate; try (rewrite Ht; discriminate);
      try (intros _; destruct (is_empty (logReadBuffer (obj p))); discriminate).
    + rewrite Hwb, app_nil_r. exact Hh.
    + destruct (logReadBuffer (obj p)); simpl; [reflexivity|].
      intros Hbad. now contradiction Hbad.
    + destruct (is_empty (logReadBuffer (obj p))); discriminate.
Qed.

Lemma Inv_drain (p : P) logMsg rest :
  Inv p -> worker p = WDrain -> logWriteBuffer (obj p) = logMsg :: rest ->
  Inv (note_drained logMsg
         (set_env (fst (drain_front logMsg rest (env p) (obj p)))
            (set_obj (snd (drain_front logMsg rest (env p) (obj p))) p))).
Proof.
  intros HI Hw Hwb.
  assert (Ht : outputThread (obj p) = true)
    by (apply thread_started; [exact HI|rewrite Hw; discriminate]).
  pose proof (inv_open p HI) as Hopen.
  destruct HI. unfold drain_front, outputToFile, outputToConsole, Ofstream.put.
  destruct (Ofstream.is_open (logStream (obj p))) eqn:Ho;
    destruct (at_FILE (output (obj p))) eqn:Hf;
    try (specialize (Hopen eq_refl); discriminate);
    destruct (at_CONSOLE (output (obj p))) eqn:Hc; simpl;
    constructor; unfold with_logStream, with_buffers; simpl;
    rewrite ?Ho, ?Hf, ?Hc, ?Hw, ?Hwb in *; auto;
    try discriminate; try (rewrite Ht; discriminate);
    try (intros; exfalso; congruence);
    try (rewrite inv_history0; now rewrite <- app_assoc);
    try (simpl; intros _; rewrite map_app; simpl;
         rewrite <- (inv_file0 eq_refl), <- app_assoc; reflexivity);
    try (simpl; rewrite ?Hc, inv_cout0, ?map_app, ?app_nil_r; simpl;
         rewrite <- ?app_assoc; reflexivity);
    try (simpl; rewrite ?Ho; discriminate).
Qed.

Lemma Inv_flush (p : P) :
  Inv p -> worker p = WDrain -> logWriteBuffer (obj p) = [] ->
  Inv (set_worker WTop false (set_obj (flush_file (obj p)) p)).
Proof.
  intros HI Hw Hwb.
  assert (Ht : outputThread (obj p) = true)
    by (apply thread_started; [exact HI|rewrite Hw; discriminate]).
  destruct HI. unfold flush_file, Ofstream.flush, at_.
  destruct (at_FILE (output (obj p))) eqn:Hf; simpl.
  - destruct (Ofstream.is_open (logStream (obj p))) eqn:Ho; simpl;
      constructor; simpl; auto; try discriminate; try (rewrite Ht; discriminate);
      try (rewrite Ho; discriminate).
    intros _. rewrite app_nil_r. now apply inv_file0.
  - constructor; simpl; auto; try discriminate; try (rewrite Ht; discriminate);
      intros Ho; specialize (inv_open0 Ho); discriminate.
Qed.

Lemma Inv_dtor_check (p : P) : Inv p -> worker p <> WExit -> Inv (dtor_check p).
Proof.
  intros HI Halive. destruct HI. unfold dtor_check.
  destruct (isEngineReady (obj p)) eqn:Hr; simpl;
    constructor; simpl; auto; try discriminate;
    try (intros Hx; contradiction);
    try (rewrite Hr; exact inv_close0); rewrite Hr; discriminate.
Qed.

Lemma alive_not_exited (p : P) : alive p = true -> worker p <> WExit.
Proof.
  unfold alive. intros Ha Hw. rewrite Hw in Ha. simpl in Ha.
  now rewrite andb_false_r in Ha.
Qed.

(** Every step keeps the invariant. *)
Lemma step_preserves l (p p' : P) : Inv p -> step lib os l p = Some p' -> Inv p'.
Proof.
  intros HI Hstep. unfold step in Hstep.
  destruct (alive p) eqn:Ha; [|discriminate].
  pose proof (alive_not_exited p Ha) as Hne.
  destruct l; simpl in Hstep.
  - injection Hstep as <-. now apply Inv_setOutput.
  - injection Hstep as <-. now apply Inv_setLogFile.
  - injection Hstep as <-. now apply Inv_setLogLevel.
  - injection Hstep as <-. now apply Inv_setFlushFrequency.
  - injection Hstep as <-. now apply Inv_setMaxBufferSize.
  - destruct (init_spawn (obj p)) as [s|x s|] eqn:Hs; injection Hstep as <-.
    + now apply Inv_init_spawn.
    + now apply Inv_set_terminated.
    + now apply Inv_set_terminated.
  - destruct (initPc p) eqn:Hpc; try discriminate.
    pose proof (init_locked_obj ctime (env p) (obj p) (inv_open p HI)) as Hobj.
    destruct (init_locked lib os ctime (env p) (obj p)) as [[e s]|x [e s]|];
      [| |contradiction]; injection Hstep as <-.
    + apply (Inv_init_locked p ctime s HI Hpc Hobj InitReturned e). now left.
    + apply (Inv_init_locked p ctime s HI Hpc Hobj InitThrew e). now right.
  - destruct (level_lt level (logLevel (obj p))); injection Hstep as <-.
    + exact HI.
    + now apply Inv_set_inflight.
  - destruct (nth_error (inflight p) i) as [entity|]; [|discriminate].
    unfold log_locked in Hstep.
    destruct (isStop (obj p)) eqn:Hstop; injection Hstep as <-.
    + now apply Inv_set_inflight.
    + now apply (Inv_log_append p entity).
  - destruct (worker p) eqn:Hw; try discriminate. injection Hstep as <-.
    now apply Inv_announce.
  - destruct (worker p) eqn:Hw; try discriminate. injection Hstep as <-.
    now apply Inv_enter.
  - destruct (worker p) eqn:Hw; try discriminate.
    destruct (match r with Notified => signalled p | _ => true end);
      [|discriminate].
    pose proof (Inv_wake p ctime HI Hw) as Hwake.
    destruct (after_wait ctime (obj p)); injection Hstep as <-; exact Hwake.
  - destruct (worker p) eqn:Hw; try discriminate.
    destruct (logWriteBuffer (obj p)) as [|logMsg rest] eqn:Hwb; [discriminate|].
    injection Hstep as <-. exact (Inv_drain p logMsg rest HI Hw Hwb).
  - destruct (worker p) eqn:Hw; try discriminate.
    destruct (logWriteBuffer (obj p)) eqn:Hwb; [|discriminate].
    injection Hstep as <-. now apply Inv_flush.
  - destruct (dtor p); try discriminate. injection Hstep as <-.
    now apply Inv_dtor_check.
  - destruct (dtor p); try discriminate. injection Hstep as <-.
    now apply Inv_dtor_check.
Qed.

Lemma run_preserves ls : forall p p' : P, Inv p -> run lib os ls p = Some p' -> Inv p'.
Proof.
  induction ls as [|l ls IH]; simpl; intros p p' HI Hrun.
  - injection Hrun as <-. exact HI.
  - destruct (step lib os l p) as [q|] eqn:Hstep; [|discriminate].
    apply (IH q p'); [|exact Hrun]. now apply (step_preserves l p).
Qed.

Lemma reachable_Inv (w : World) (p : P) : reachable lib os w p -> Inv p.
Proof.
  intros [ls Hrun]. apply (run_preserves ls (start w)); [apply Inv_start|exact Hrun].
Qed.

End EngineFacts.

(** ** Start-up: [init] and the ready flag *)

(** C1 as stated fails: there is an execution in which [init] has returned
    and the output thread has not set [isEngineReady]; it has not even
    started its loop. *)
Lemma init_returns_before_engine_is_ready :
  exists p,
    run Sample.lib Sample.writable run_init_only (start ["."%string]) = Some p
    /\ initPc p = InitReturned
    /\ isEngineReady (obj p) = false
    /\ worker p = WTop.
Proof. eexists. split; [reflexivity|]. repeat split. Qed.

Section StartUp.

Context (lib : LoggingLib) {World : Type} (os : Posix World).

(** C1, as amended. [init] does not wait for the output thread: once
    the thread is created, the locked section of [init] can run and come
    back whatever [isEngineReady] is, and it leaves the flag as it found
    it. The wait for the flag is in the destructor: in every execution,
    when [isCloseEngine] is set, and when the destructor has reached
    [join], the output thread has set [isEngineReady]. *)
Theorem ready_is_awaited_by_destructor_not_init (w : World) (p : Process World) :
  reachable lib os w p ->
  (forall ctime,
      alive p = true -> initPc p = InitSpawned ->
      exists p',
        step lib os (LInitLocked ctime) p = Some p'
        /\ (initPc p' = InitReturned \/ initPc p' = InitThrew)
        /\ isEngineReady (obj p') = isEngineReady (obj p))
  /\ (isCloseEngine (obj p) = true -> isEngineReady (obj p) = true)
  /\ (dtor p = DJoin -> isEngineReady (obj p) = true).
Proof.
  intros Hreach. pose proof (reachable_Inv lib os w p Hreach) as HI.
  split; [|split].
  - intros ctime Ha Hpc. unfold step. rewrite Ha. simpl. rewrite Hpc.
    pose proof (init_locked_obj lib os ctime (env p) (obj p) (inv_open p HI)) as Hobj.
    destruct (init_locked lib os ctime (env p) (obj p)) as [[e s]|x [e s]|];
      [| |contradiction]; destruct Hobj as (f & -> & _); eexists;
      (split; [reflexivity|]); simpl; auto.
  - apply (inv_close p HI).
  - intros Hd. apply (inv_close p HI), (inv_join p HI), Hd.
Qed.

End StartUp.

Lemma ready_is_awaited_by_destructor_not_init_witness :
  run Sample.lib Sample.writable run_to_join (start ["."%string]) = Some state_at_join
  /\ dtor state_at_join = DJoin
  /\ isCloseEngine (obj state_at_join) = true
  /\ isEngineReady (obj state_at_join) = true.
Proof.
  assert (Hrun : run Sample.lib Sample.writable run_to_join (start ["."%string])
                 = Some state_at_join) by reflexivity.
  split; [exact Hrun|]. split; [reflexivity|]. split; [reflexivity|].
  destruct (ready_is_awaited_by_destructor_not_init Sample.lib Sample.writable
              ["."%string] state_at_join (ex_intro _ run_to_join Hrun))
    as (_ & Hclose & _).
  apply Hclose. reflexivity.
Defined.

(** ** Order of the records and the final drain *)

Section Drain.

Context (lib : LoggingLib) {World : Type} (os : Posix World).

(** C7. In every execution the records popped by the drain loop,
    followed by the write buffer and then the read buffer, are the
    records pushed by [log], in the order of the pushes: [push_back],
    the swap and [front]/[pop_front] keep that order. What the stream of
    the file sink received is the file form of the popped records, in
    that order, and what [cout] received since [init] is their console
    form, in that order, when the console sink is enabled (and nothing
    when it is not). *)
Theorem records_are_written_in_append_order (w : World) (p : Process World) :
  reachable lib os w p ->
  appended p = drained p ++ logWriteBuffer (obj p) ++ logReadBuffer (obj p)
  /\ (Ofstream.is_open (logStream (obj p)) = true ->
      at_FILE (output (obj p)) = true
      /\ Ofstream.file (logStream (obj p)) ++ Ofstream.pending (logStream (obj p))
         = map toFile (drained p))
  /\ (at_CONSOLE (output (obj p)) = true ->
      cout (env p) = cout_at_init p ++ map toConsole (drained p))
  /\ (at_CONSOLE (output (obj p)) = false -> cout (env p) = cout_at_init p).
Proof.
  intros Hreach. pose proof (reachable_Inv lib os w p Hreach) as HI.
  split; [apply (inv_history p HI)|].
  split; [intros Ho; split; [apply (inv_open p HI Ho)|apply (inv_file p HI Ho)]|].
  pose proof (inv_cout p HI) as Hc.
  split; intros Hcon; rewrite Hcon in Hc; [exact Hc|].
  now rewrite app_nil_r in Hc.
Qed.

Lemma run_app (a b : list label) (p : Process World) :
  run lib os (a ++ b) p
  = match run lib os a p with
    | Some q => run lib os b q
    | None => None
    end.
Proof.
  revert p. induction a as [|l a IH]; intros p; simpl; [reflexivity|].
  destruct (step lib os l p); [apply IH|reflexivity].
Qed.

(** The drain loop empties the write buffer, one record a turn, and
    leaves the read buffer and the close flag alone. *)
Lemma drain_loop_runs (l : list OutputEntity) :
  forall p : Process World,
    terminated p = false -> worker p = WDrain -> logWriteBuffer (obj p) = l ->
    exists q,
      run lib os (repeat LDrain (List.length l)) p = Some q
      /\ terminated q = false /\ worker q = WDrain
      /\ logWriteBuffer (obj q) = []
      /\ logReadBuffer (obj q) = logReadBuffer (obj p)
      /\ isCloseEngine (obj q) = isCloseEngine (obj p).
Proof.
  induction l as [|logMsg rest IH]; intros p Ht Hw Hwb.
  - exists p. simpl. repeat split; assumption.
  - simpl. unfold step, alive. rewrite Ht, Hw. simpl. rewrite Hw, Hwb.
    match goal with
    | |- exists q, run lib os _ ?p1 = _ /\ _ =>
        destruct (IH p1) as (q & Hrun & Hq)
    end.
    + exact Ht.
    + exact Hw.
    + reflexivity.
    + exists q. split; [exact Hrun|].
      destruct Hq as (H1 & H2 & H3 & H4 & H5).
      repeat (split; [assumption|]). simpl in H4, H5.
      split; [rewrite H4|rewrite H5];
        destruct (at_FILE (output (obj p))); reflexivity.
Qed.

(** After the drain loop the output thread flushes, goes round its outer
    loop and comes to [wait_for]. *)
Lemma back_to_wait (p : Process World) :
  terminated p = false -> worker p = WDrain -> logWriteBuffer (obj p) = [] ->
  exists q,
    run lib os [LFlush; LAnnounce; LEnter] p = Some q
    /\ terminated q = false /\ worker q = WWait
    /\ logWriteBuffer (obj q) = []
    /\ logReadBuffer (obj q) = logReadBuffer (obj p)
    /\ isCloseEngine (obj q) = isCloseEngine (obj p).
Proof.
  intros Ht Hw Hwb. simpl.
  unfold step at 1, alive. rewrite Ht, Hw. simpl. rewrite Hw, Hwb.
  unfold step at 1, alive. simpl. rewrite Ht. simpl.
  unfold step at 1, alive. simpl. rewrite Ht. simpl.
  eexists. split; [reflexivity|]. simpl.
  unfold inner_test, announce, flush_file, at_.
  destruct (at_FILE (output (obj p))), (isEngineReady (obj p)); simpl;
    rewrite ?Hwb; simpl; rewrite ?Hwb; repeat split; try assumption;
    destruct (isEngineReady (obj p)); simpl; rewrite ?Hwb; auto.
Qed.

Lemma wake_with_records ctime (p : Process World) :
  terminated p = false -> worker p = WWait ->
  logWriteBuffer (obj p) = [] -> logReadBuffer (obj p) <> [] ->
  exists q,
    step lib os (LWake TimedOut ctime) p = Some q
    /\ terminated q = false /\ worker q = WDrain
    /\ logWriteBuffer (obj q) = logReadBuffer (obj p)
    /\ logReadBuffer (obj q) = []
    /\ isCloseEngine (obj q) = isCloseEngine (obj p).
Proof.
  intros Ht Hw Hwb Hrd.
  unfold step, alive. rewrite Ht, Hw. simpl. rewrite Hw.
  unfold after_wait. simpl.
  destruct (logReadBuffer (obj p)) as [|x r] eqn:Hr; [contradiction|].
  simpl. rewrite andb_false_r.
  eexists. split; [reflexivity|]. simpl.
  unfold inner_test. simpl. auto.
Qed.

Lemma wake_without_records ctime (p : Process World) :
  terminated p = false -> worker p = WWait ->
  logWriteBuffer (obj p) = [] -> logReadBuffer (obj p) = [] ->
  isCloseEngine (obj p) = true ->
  exists q, step lib os (LWake TimedOut ctime) p = Some q /\ worker q = WExit.
Proof.
  intros Ht Hw Hwb Hrd Hc.
  unfold step, alive. rewrite Ht, Hw. simpl. rewrite Hw.
  unfold after_wait. simpl. rewrite Hc, Hrd. simpl.
  eexists. split; reflexivity.
Qed.

Lemma drain_steps_of_worker n : forallb of_worker (repeat LDrain n) = true.
Proof. induction n; simpl; auto. Qed.

(** From wherever it is in its loop, the output thread comes to
    [wait_for] with an empty write buffer, by its own steps. *)
Lemma worker_comes_to_wait (p : Process World) :
  Inv p -> terminated p = false ->
  worker p <> WNone -> worker p <> WExit ->
  exists ls q,
    run lib os ls p = Some q
    /\ forallb of_worker ls = true
    /\ terminated q = false /\ worker q = WWait
    /\ logWriteBuffer (obj q) = []
    /\ logReadBuffer (obj q) = logReadBuffer (obj p)
    /\ isCloseEngine (obj q) = isCloseEngine (obj p).
Proof.
  intros HI Ht Hn He.
  destruct (worker p) eqn:Hw; try contradiction.
  - (* WTop *)
    assert (Hwb : logWriteBuffer (obj p) = [])
      by (apply (inv_write p HI); rewrite Hw; discriminate).
    exists [LAnnounce; LEnter]. simpl.
    unfold step at 1, alive. rewrite Ht, Hw. simpl. rewrite Hw.
    unfold step at 1, alive. simpl. rewrite Ht. simpl.
    eexists. split; [reflexivity|]. simpl.
    unfold inner_test, announce.
    destruct (isEngineReady (obj p)); simpl; rewrite Hwb; simpl; repeat split; auto.
  - (* WLock *)
    assert (Hwb : logWriteBuffer (obj p) = [])
      by (apply (inv_write p HI); rewrite Hw; discriminate).
    exists [LEnter]. simpl.
    unfold step at 1, alive. rewrite Ht, Hw. simpl. rewrite Hw.
    eexists. split; [reflexivity|]. simpl.
    unfold inner_test. rewrite Hwb. simpl. repeat split; auto.
  - (* WWait *)
    assert (Hwb : logWriteBuffer (obj p) = [])
      by (apply (inv_write p HI); rewrite Hw; discriminate).
    exists [], p. simpl. repeat split; auto.
  - (* WDrain *)
    destruct (drain_loop_runs (logWriteBuffer (obj p)) p Ht Hw eq_refl)
      as (q1 & Hrun1 & Ht1 & Hw1 & Hwb1 & Hrd1 & Hc1).
    destruct (back_to_wait q1 Ht1 Hw1 Hwb1)
      as (q2 & Hrun2 & Ht2 & Hw2 & Hwb2 & Hrd2 & Hc2).
    exists (repeat LDrain (List.length (logWriteBuffer (obj p)))
              ++ [LFlush; LAnnounce; LEnter]), q2.
    rewrite run_app, Hrun1, Hrun2, forallb_app, drain_steps_of_worker.
    repeat split; try assumption; congruence.
Qed.

(** Once [isCloseEngine] is set, the output thread can go on, by its own
    steps and without any other thread moving, to drain whatever is
    buffered and then to [exit(0)]. *)
Lemma worker_can_reach_exit (ctime : string) (p : Process World) :
  Inv p -> alive p = true -> isCloseEngine (obj p) = true ->
  exists ls q,
    run lib os ls p = Some q
    /\ forallb of_worker ls = true
    /\ worker q = WExit.
Proof.
  intros HI Ha Hc.
  assert (Ht : terminated p = false).
  { unfold alive in Ha. apply andb_true_iff in Ha.
    destruct Ha as [Ha _]. now destruct (terminated p). }
  pose proof (alive_not_exited p Ha) as He.
  pose proof (inv_ready p HI (inv_close p HI Hc)) as Hn.
  destruct (worker_comes_to_wait p HI Ht Hn He)
    as (ls1 & q1 & Hrun1 & Hls1 & Ht1 & Hw1 & Hwb1 & Hrd1 & Hc1).
  rewrite Hc in Hc1.
  destruct (logReadBuffer (obj q1)) as [|x r] eqn:Hr.
  - destruct (wake_without_records ctime q1 Ht1 Hw1 Hwb1 Hr Hc1) as (q & Hstep & Hq).
    exists (ls1 ++ [LWake TimedOut ctime]), q.
    rewrite run_app, Hrun1, forallb_app, Hls1. simpl. rewrite Hstep. auto.
  - destruct (wake_with_records ctime q1 Ht1 Hw1 Hwb1) as
        (q2 & Hstep2 & Ht2 & Hw2 & Hwb2 & Hrd2 & Hc2);
      [rewrite Hr; discriminate|].
    destruct (drain_loop_runs (logWriteBuffer (obj q2)) q2 Ht2 Hw2 eq_refl)
      as (q3 & Hrun3 & Ht3 & Hw3 & Hwb3 & Hrd3 & Hc3).
    destruct (back_to_wait q3 Ht3 Hw3 Hwb3)
      as (q4 & Hrun4 & Ht4 & Hw4 & Hwb4 & Hrd4 & Hc4).
    assert (Hrd : logReadBuffer (obj q4) = []) by congruence.
    assert (Hcl : isCloseEngine (obj q4) = true) by congruence.
    destruct (wake_without_records ctime q4 Ht4 Hw4 Hwb4 Hrd Hcl) as (q & Hstep & Hq).
    exists (ls1 ++ [LWake TimedOut ctime]
              ++ repeat LDrain (List.length (logWriteBuffer (obj q2)))
              ++ [LFlush; LAnnounce; LEnter] ++ [LWake TimedOut ctime]), q.
    split; [|split; [|exact Hq]].
    + rewrite run_app, Hrun1.
      change (run lib os ([LWake TimedOut ctime] ++ ?l) q1)
        with (match step lib os (LWake TimedOut ctime) q1 with
              | Some p' => run lib os l p'
              | None => None
              end).
      rewrite Hstep2, run_app, Hrun3, run_app, Hrun4. simpl. now rewrite Hstep.
    + rewrite !forallb_app, Hls1, drain_steps_of_worker. reflexivity.
Qed.

Lemma worker_steps_keep_history (ls : list label) :
  forall p q : Process World,
    forallb of_worker ls = true -> run lib os ls p = Some q ->
    appended q = appended p.
Proof.
  induction ls as [|l ls IH]; simpl; intros p q Hls Hrun.
  - now injection Hrun as <-.
  - apply andb_true_iff in Hls. destruct Hls as [Hl Hls].
    destruct (step lib os l p) as [p1|] eqn:Hstep; [|discriminate].
    rewrite (IH p1 q Hls Hrun).
    unfold step in Hstep. destruct (alive p); [|discriminate].
    destruct l; simpl in Hl, Hstep; try discriminate;
      destruct (worker p); try discriminate.
    + now injection Hstep as <-.
    + now injection Hstep as <-.
    + destruct (match r with Notified => signalled p | _ => true end);
        [|discriminate].
      destruct (after_wait ctime (obj p)); now injection Hstep as <-.
    + destruct (logWriteBuffer (obj p)); [discriminate|].
      now injection Hstep as <-.
    + destruct (logWriteBuffer (obj p)); [|discriminate].
      now injection Hstep as <-.
Qed.

(** What holds once the output thread has called [exit(0)]. *)
Lemma at_exit (w : World) (p : Process World) :
  reachable lib os w p ->
  worker p = WExit ->
  isCloseEngine (obj p) = true
  /\ logWriteBuffer (obj p) = []
  /\ logReadBuffer (obj p) = []
  /\ drained p = appended p
  /\ (Ofstream.is_open (logStream (obj p)) = true ->
      Ofstream.file (logStream (obj p)) = map toFile (appended p)
      /\ Ofstream.pending (logStream (obj p)) = []).
Proof.
  intros Hreach Hexit. pose proof (reachable_Inv lib os w p Hreach) as HI.
  assert (Hnd : worker p <> WDrain) by (rewrite Hexit; discriminate).
  destruct (inv_exit p HI Hexit) as [Hclose Hread].
  pose proof (inv_write p HI Hnd) as Hwrite.
  pose proof (inv_history p HI) as Hh.
  rewrite Hwrite, Hread, app_nil_r in Hh.
  repeat (split; [assumption|]).
  split; [now symmetry|].
  intros Ho.
  pose proof (inv_pending p HI Ho Hnd) as Hp.
  pose proof (inv_file p HI Ho) as Hf.
  rewrite Hp, app_nil_r in Hf.
  split; [now rewrite Hh|exact Hp].
Qed.

(** C6. The output thread calls [exit(0)] only when [isCloseEngine] is
    set and the write buffer is empty after the swap. In every
    execution, once it has done so both buffers are empty and every
    record ever pushed by [log] has been popped by the drain loop; with a
    file attached to the stream, the file holds the file form of every
    such record, in order, and nothing is left unflushed. And the final
    drain does happen: from any state of an execution in which
    [isCloseEngine] is set, the output thread, running by itself, drains
    the records pushed so far and reaches [exit(0)], with all of them in
    the file. *)
Theorem no_record_is_lost_at_exit (w : World) (p : Process World) :
  reachable lib os w p ->
  (forall ctime s s',
      after_wait ctime s = Exit s' ->
      isCloseEngine s = true
      /\ s' = with_buffers (logWriteBuffer s) (logReadBuffer s) s
      /\ logWriteBuffer s' = [])
  /\ (worker p = WExit ->
      isCloseEngine (obj p) = true
      /\ logWriteBuffer (obj p) = []
      /\ logReadBuffer (obj p) = []
      /\ drained p = appended p
      /\ (Ofstream.is_open (logStream (obj p)) = true ->
          Ofstream.file (logStream (obj p)) = map toFile (appended p)
          /\ Ofstream.pending (logStream (obj p)) = []))
  /\ (alive p = true -> isCloseEngine (obj p) = true ->
      exists ls q,
        run lib os ls p = Some q
        /\ forallb of_worker ls = true
        /\ worker q = WExit
        /\ drained q = appended p
        /\ (Ofstream.is_open (logStream (obj q)) = true ->
            Ofstream.file (logStream (obj q)) = map toFile (appended p))).
Proof.
  intros Hreach.
  split; [|split].
  - intros ctime s s'. unfold after_wait. simpl.
    destruct (isCloseEngine s && is_empty (logReadBuffer s)) eqn:Hx;
      [|discriminate].
    intros Heq. injection Heq as <-.
    apply andb_true_iff in Hx. destruct Hx as [Hc He].
    split; [exact Hc|]. split; [reflexivity|]. simpl.
    now apply is_empty_nil.
  - now apply (at_exit w).
  - intros Ha Hc.
    pose proof (reachable_Inv lib os w p Hreach) as HI.
    destruct (worker_can_reach_exit EmptyString p HI Ha Hc)
      as (ls & q & Hrun & Hls & Hq).
    exists ls, q.
    repeat (split; [assumption|]).
    assert (Hreach' : reachable lib os w q).
    { destruct Hreach as [ls0 Hrun0]. exists (ls0 ++ ls).
      now rewrite run_app, Hrun0. }
    destruct (at_exit w q Hreach' Hq) as (_ & _ & _ & Hd & Hfile).
    rewrite <- (worker_steps_keep_history ls p q Hls Hrun).
    split; [exact Hd|].
    intros Ho. apply (Hfile Ho).
Qed.

End Drain.

Lemma records_are_written_in_append_order_witness :
  run Sample.lib Sample.writable run_two_records (start ["."%string])
  = Some state_two_records
  /\ map toFile (appended state_two_records) = [line_second; line_first]
  /\ Ofstream.file (logStream (obj state_two_records))
       ++ Ofstream.pending (logStream (obj state_two_records))
     = map toFile (drained state_two_records).
Proof.
  assert (Hrun : run Sample.lib Sample.writable run_two_records (start ["."%string])
                 = Some state_two_records) by reflexivity.
  split; [exact Hrun|]. split; [reflexivity|].
  destruct (records_are_written_in_append_order Sample.lib Sample.writable
              ["."%string] state_two_records (ex_intro _ run_two_records Hrun))
    as (_ & Hfile & _).
  apply Hfile. reflexivity.
Defined.

Lemma no_record_is_lost_at_exit_witness :
  run Sample.lib Sample.writable run_two_records (start ["."%string])
  = Some state_two_records
  /\ worker state_two_records = WExit
  /\ Ofstream.file (logStream (obj state_two_records))
     = map toFile (appended state_two_records)
  /\ map toFile (appended state_two_records) = [line_second; line_first].
Proof.
  assert (Hrun : run Sample.lib Sample.writable run_two_records (start ["."%string])
                 = Some state_two_records) by reflexivity.
  split; [exact Hrun|]. split; [reflexivity|].
  destruct (no_record_is_lost_at_exit Sample.lib Sample.writable
              ["."%string] state_two_records (ex_intro _ run_two_records Hrun))
    as (_ & Hexit & _).
  destruct (Hexit eq_refl) as (_ & _ & _ & _ & Hfile).
  split; [apply Hfile; reflexivity|reflexivity].
Defined.

(** ** The threshold signal *)

Section LostNotification.

Context (lib : LoggingLib) {World : Type} (os : Posix World).

(** An output thread that is inside [wait_for] with no notification
    pending stays there, and drains nothing, as long as no record is
    pushed and the wait neither times out nor ends spuriously. *)
Lemma unsignalled_wait_stays (ls : list label) :
  forall p q : Process World,
    Inv p -> worker p = WWait -> signalled p = false ->
    forallb quiet ls = true ->
    run lib os ls p = Some q ->
    worker q = WWait /\ signalled q = false /\ drained q = drained p.
Proof.
  induction ls as [|l ls IH]; simpl; intros p q HI Hw Hs Hq Hrun.
  - injection Hrun as <-. auto.
  - apply andb_true_iff in Hq. destruct Hq as [Hl Hq].
    destruct (step lib os l p) as [p1|] eqn:Hstep; [|discriminate].
    pose proof (step_preserves lib os l p p1 HI Hstep) as HI1.
    assert (Ht : outputThread (obj p) = true)
      by (apply thread_started; [exact HI|rewrite Hw; discriminate]).
    assert (H1 : worker p1 = WWait /\ signalled p1 = false
                 /\ drained p1 = drained p).
    { unfold step in Hstep. destruct (alive p); [|discriminate].
      destruct l; simpl in Hstep, Hl; try discriminate;
        rewrite ?Hw, ?Hs in Hstep; try discriminate;
        try (injection Hstep as <-; simpl; auto; fail).
      - unfold init_spawn in Hstep. rewrite Ht in Hstep.
        injection Hstep as <-. simpl. auto.
      - destruct (initPc p); try discriminate.
        destruct (init_locked lib os ctime (env p) (obj p)) as [[e s]|x [e s]|];
          injection Hstep as <-; simpl; auto.
      - destruct (level_lt level (logLevel (obj p)));
          injection Hstep as <-; simpl; auto.
      - destruct r; try discriminate.
      - destruct (dtor p); try discriminate. injection Hstep as <-.
        unfold dtor_check. destruct (isEngineReady (obj p)); simpl; auto.
      - destruct (dtor p); try discriminate. injection Hstep as <-.
        unfold dtor_check. destruct (isEngineReady (obj p)); simpl; auto. }
    destruct H1 as (Hw1 & Hs1 & Hd1).
    destruct (IH p1 q HI1 Hw1 Hs1 Hq Hrun) as (Hwq & Hsq & Hdq).
    repeat split; congruence.
Qed.

End LostNotification.

(** C8 as stated fails: with threshold 1, the first record brings the
    read buffer to the threshold and [notify_one] is called, but the
    output thread is not waiting yet, so the notification is lost. The
    thread then enters [wait_for] with the record still in the read
    buffer, nothing drained and no notification to wake it: only the
    timeout of the flush period (or a spurious wake-up) leads to the
    drain, for whatever else happens, as long as no further record is
    logged, the thread stays in [wait_for] and nothing is drained. *)
Lemma notification_before_first_wait_is_lost :
  run Sample.lib Sample.writable run_early_log (start ["."%string])
  = Some state_early_log
  /\ maxBufferSize (obj state_early_log) = 1%N
  /\ List.length (logReadBuffer (obj state_early_log)) = 1
  /\ signalled state_early_log = false
  /\ run Sample.lib Sample.writable [LAnnounce; LEnter] state_early_log
     = Some state_after_early_log
  /\ worker state_after_early_log = WWait
  /\ List.length (logReadBuffer (obj state_after_early_log)) = 1
  /\ drained state_after_early_log = []
  /\ (forall ctime,
        step Sample.lib Sample.writable (LWake Notified ctime) state_after_early_log
        = None)
  /\ (forall ls q,
        forallb quiet ls = true ->
        run Sample.lib Sample.writable ls state_after_early_log = Some q ->
        worker q = WWait /\ drained q = []).
Proof.
  do 8 (split; [reflexivity|]).
  split; [intros ctime; reflexivity|].
  intros ls q Hquiet Hrun.
  assert (HI : Inv state_after_early_log).
  { apply (reachable_Inv Sample.lib Sample.writable ["."%string]).
    exists (run_early_log ++ [LAnnounce; LEnter]). reflexivity. }
  destruct (unsignalled_wait_stays Sample.lib Sample.writable ls
              state_after_early_log q HI eq_refl eq_refl Hquiet Hrun)
    as (Hw & _ & Hd).
  split; [exact Hw|exact Hd].
Qed.

Section Threshold.

Context (lib : LoggingLib) {World : Type} (os : Posix World).

Lemma log_all_flags (entities : list OutputEntity) :
  forall s,
    isStop s = false ->
    snd (log_all entities s)
    = map (fun k => (maxBufferSize s <=? N.of_nat k)%N)
          (seq (S (List.length (logReadBuffer s))) (List.length entities)).
Proof.
  induction entities as [|entity rest IH]; intros s Hrun; [reflexivity|].
  simpl. unfold log_locked. rewrite Hrun.
  set (s' := with_buffers (logReadBuffer s ++ [entity]) (logWriteBuffer s) s).
  specialize (IH s' Hrun).
  destruct (log_all rest s') as [s'' flags]. simpl in *.
  rewrite IH, length_app. simpl.
  now rewrite Nat.add_1_r.
Qed.

Lemma below_threshold_flags (T n start : nat) :
  start + n <= T ->
  map (fun k => (N.of_nat T <=? N.of_nat k)%N) (seq start n) = repeat false n.
Proof.
  revert start. induction n as [|n IH]; intros start Hle; [reflexivity|].
  simpl. rewrite IH by lia.
  replace (N.of_nat T <=? N.of_nat start)%N with false; [reflexivity|].
  symmetry. apply N.leb_gt. lia.
Qed.

(** C8, as amended. An accepted append calls [logCV.notify_one()]
    exactly when the size it gives the read buffer is at least the
    threshold: of T records logged into an empty read buffer of a
    running engine with threshold T, the first T-1 produce no
    notification and the T-th does. The notification leads to a drain
    without the timeout only if the output thread is inside [wait_for]
    at that moment: then the thread, woken by the notification, swaps
    the buffers and goes to the drain loop with the records just logged.
    A notification made while the output thread is elsewhere is lost. *)
Theorem threshold_append_notifies_waiting_worker :
  (forall (entities : list OutputEntity) (s : LogHandler) (T : nat),
      isStop s = false ->
      logReadBuffer s = [] ->
      maxBufferSize s = N.of_nat T ->
      0 < T ->
      List.length entities = T ->
      snd (log_all entities s) = repeat false (T - 1) ++ [true])
  /\ (forall (p : Process World) (i : nat) (entity : OutputEntity),
        alive p = true ->
        isStop (obj p) = false ->
        nth_error (inflight p) i = Some entity ->
        exists s' notified p',
          log_locked entity (obj p) = Returns (s', notified)
          /\ logReadBuffer s' = logReadBuffer (obj p) ++ [entity]
          /\ notified
             = (maxBufferSize (obj p) <=? N.of_nat (List.length (logReadBuffer s')))%N
          /\ step lib os (LLogAppend i) p = Some p'
          /\ obj p' = s'
          /\ worker p' = worker p
          /\ (N.of_nat (List.length (logReadBuffer s')) = maxBufferSize (obj p) ->
              notified = true
              /\ (worker p = WWait ->
                  signalled p' = true
                  /\ forall ctime,
                      exists p'',
                        step lib os (LWake Notified ctime) p' = Some p''
                        /\ worker p'' = WDrain
                        /\ logWriteBuffer (obj p'')
                           = logReadBuffer (obj p) ++ [entity]
                        /\ logReadBuffer (obj p'') = logWriteBuffer (obj p)))
          /\ ((N.of_nat (List.length (logReadBuffer s')) < maxBufferSize (obj p))%N ->
              notified = false /\ signalled p' = signalled p)
          /\ (worker p <> WWait -> signalled p' = signalled p)).
Proof.
  split.
  { intros entities s T Hrun Hempty HT Hpos Hlen.
    rewrite (log_all_flags entities s Hrun), Hempty, HT, Hlen. simpl List.length.
    destruct T as [|n]; [lia|].
    rewrite seq_S, map_app, below_threshold_flags by lia.
    replace (S n - 1) with n by lia.
    simpl. now rewrite N.leb_refl. }
  intros p i entity Ha Hrun Hnth.
  unfold log_locked. rewrite Hrun.
  eexists. eexists. eexists.
  split; [reflexivity|]. split; [reflexivity|]. split; [reflexivity|].
  unfold step. rewrite Ha. simpl. rewrite Hnth.
  unfold log_locked. rewrite Hrun.
  split; [reflexivity|]. split; [reflexivity|]. split; [reflexivity|].
  simpl.
  split; [|split].
  - intros Hsize. rewrite Hsize, N.leb_refl.
    split; [reflexivity|].
    intros Hw. rewrite Hw. simpl. rewrite orb_true_r.
    split; [reflexivity|].
    intros ctime. unfold step, alive. simpl.
    unfold alive in Ha. rewrite Hw in Ha. simpl in Ha. rewrite Ha.
    unfold after_wait. simpl.
    assert (He : is_empty (logReadBuffer (obj p) ++ [entity]) = false)
      by (destruct (logReadBuffer (obj p)); reflexivity).
    rewrite He, andb_false_r. simpl.
    eexists. split; [reflexivity|]. simpl.
    unfold inner_test. simpl. rewrite He. repeat split.
  - intros Hlt. apply N.leb_gt in Hlt. rewrite Hlt. simpl.
    split; [reflexivity|apply orb_false_r].
  - intros Hw.
    replace (waiting (worker p)) with false
      by (destruct (worker p); try reflexivity; now contradiction Hw).
    rewrite andb_false_r. apply orb_false_r.
Qed.

End Threshold.

Lemma threshold_append_notifies_waiting_worker_witness :
  snd (log_all (appended state_two_records)
         (with_maxBufferSize 2 (with_isStop false newHandler)))
  = [false; true]
  /\ run Sample.lib Sample.writable run_to_threshold (start ["."%string])
     = Some state_at_threshold
  /\ signalled state_at_threshold = false
  /\ exists p',
      step Sample.lib Sample.writable (LLogAppend 0) state_at_threshold = Some p'
      /\ signalled p' = true.
Proof.
  destruct (threshold_append_notifies_waiting_worker Sample.lib Sample.writable)
    as [Hseq Hproc].
  split.
  { apply (Hseq (appended state_two_records)
             (with_maxBufferSize 2 (with_isStop false newHandler)) 2);
      try reflexivity.
    lia. }
  split; [reflexivity|]. split; [reflexivity|].
  destruct (Hproc state_at_threshold 0
              {| toConsole := (color Warn ++ line_second)%string;
                 toFile := line_second |}
              eq_refl eq_refl eq_refl)
    as (s' & notified & p' & _ & Hread & _ & Hstep & _ & _ & Hsig & _).
  exists p'. split; [exact Hstep|].
  apply Hsig; [rewrite Hread; reflexivity|reflexivity].
Defined.

(** * Further properties of the code *)

(** ** Configuration of a stopped engine *)

(** X1. On a stopped engine [setOutput] sets the flag of the sink it
    names and leaves the flag of the other sink; disabling the file sink
    closes the stream, and what had been inserted into it is kept (an
    open stream is flushed to the file); any other call leaves the stream
    alone. *)
Theorem setOutput_sets_the_named_sink (o : Output) (isAllowed : bool) (s : LogHandler) :
  isStop s = true ->
  at_ (output (setOutput o isAllowed s)) o = isAllowed
  /\ (forall k, k <> o ->
        at_ (output (setOutput o isAllowed s)) k = at_ (output s) k)
  /\ (o = FILE -> isAllowed = false ->
      Ofstream.is_open (logStream (setOutput o isAllowed s)) = false
      /\ Ofstream.file (logStream (setOutput o isAllowed s))
           ++ Ofstream.pending (logStream (setOutput o isAllowed s))
         = Ofstream.file (logStream s) ++ Ofstream.pending (logStream s)
      /\ (Ofstream.is_open (logStream s) = true ->
          Ofstream.pending (logStream (setOutput o isAllowed s)) = []))
  /\ (o = CONSOLE \/ isAllowed = true ->
      logStream (setOutput o isAllowed s) = logStream s).
Proof.
  intros Hstop. unfold setOutput. rewrite Hstop. simpl.
  split; [destruct o; reflexivity|].
  split.
  { intros k Hk. destruct o, k; try (now contradiction Hk); simpl;
      try destruct (negb isAllowed && Ofstream.is_open (logStream s)); reflexivity. }
  split.
  - intros -> ->. simpl. unfold Ofstream.close.
    destruct (Ofstream.is_open (logStream s)) eqn:Ho; simpl; rewrite ?Ho; simpl.
    + split; [reflexivity|]. split; [now rewrite app_nil_r|reflexivity].
    + split; [reflexivity|]. split; [reflexivity|discriminate].
  - intros [-> | ->]; [reflexivity|]. destruct o; reflexivity.
Qed.

Lemma setOutput_sets_the_named_sink_witness :
  at_ (output (setOutput CONSOLE false newHandler)) CONSOLE = false
  /\ at_ (output (setOutput CONSOLE false newHandler)) FILE = true.
Proof.
  destruct (setOutput_sets_the_named_sink CONSOLE false newHandler eq_refl)
    as (Hset & Hother & _).
  split; [exact Hset|].
  rewrite (Hother FILE); [reflexivity|discriminate].
Defined.

(** X2. On a stopped engine [setLogFile] enables the file sink, leaves
    the console flag, closes the stream and stores the directory and the
    file name [pathToFile] gives for the path. It therefore undoes an
    earlier [setOutput(FILE, false)], while a [setOutput(FILE, false)]
    made after it leaves the file sink disabled. *)
Theorem setLogFile_enables_the_file_sink
        (lib : LoggingLib) (logPath : string) (s : LogHandler) :
  isStop s = true ->
  at_FILE (output (setLogFile lib logPath s)) = true
  /\ at_CONSOLE (output (setLogFile lib logPath s)) = at_CONSOLE (output s)
  /\ Ofstream.is_open (logStream (setLogFile lib logPath s)) = false
  /\ (logDir (setLogFile lib logPath s), logFile (setLogFile lib logPath s))
     = pathToFile lib logPath (logDir s) (logFile s)
  /\ at_FILE (output (setLogFile lib logPath (setOutput FILE false s))) = true
  /\ at_FILE (output (setOutput FILE false (setLogFile lib logPath s))) = false.
Proof.
  intros Hstop.
  assert (Hgen : forall s0, isStop s0 = true ->
            at_FILE (output (setLogFile lib logPath s0)) = true
            /\ at_CONSOLE (output (setLogFile lib logPath s0)) = at_CONSOLE (output s0)
            /\ Ofstream.is_open (logStream (setLogFile lib logPath s0)) = false
            /\ (logDir (setLogFile lib logPath s0), logFile (setLogFile lib logPath s0))
               = pathToFile lib logPath (logDir s0) (logFile s0)
            /\ isStop (setLogFile lib logPath s0) = true).
  { intros s0 H0. unfold setLogFile. rewrite H0. simpl.
    destruct (Ofstream.is_open (logStream s0)) eqn:Ho; simpl;
      destruct (pathToFile lib logPath (logDir s0) (logFile s0)) as [d f]; simpl;
      rewrite ?close_not_open, ?Ho; repeat split; assumption. }
  destruct (Hgen s Hstop) as (H1 & H2 & H3 & H4 & H5).
  repeat (split; [assumption|]).
  split.
  - apply Hgen. unfold setOutput. rewrite Hstop. simpl.
    destruct (Ofstream.is_open (logStream s)); exact Hstop.
  - unfold setOutput. rewrite H5. simpl. reflexivity.
Qed.

Lemma setLogFile_enables_the_file_sink_witness :
  at_FILE (output (setLogFile Sample.lib "./log/log/log.log"
                     (setOutput FILE false newHandler))) = true
  /\ logDir (setLogFile Sample.lib "./log/log/log.log" newHandler) = "./log/log"%string
  /\ logFile (setLogFile Sample.lib "./log/log/log.log" newHandler) = "log.log"%string.
Proof.
  destruct (setLogFile_enables_the_file_sink Sample.lib "./log/log/log.log"
              newHandler eq_refl) as (_ & _ & _ & Hpath & Hundo & _).
  split; [exact Hundo|].
  split; [exact (f_equal fst Hpath)|exact (f_equal snd Hpath)].
Defined.

Lemma setters_keep_lifecycle
      (lib : LoggingLib) (o : Output) (isAllowed : bool) (logPath : string)
      (level : Level) (fre size : N) (s : LogHandler) :
  lifecycle (setOutput o isAllowed s) = lifecycle s
  /\ lifecycle (setLogFile lib logPath s) = lifecycle s
  /\ lifecycle (setLogLevel level s) = lifecycle s
  /\ lifecycle (setFlushFrequency fre s) = lifecycle s
  /\ lifecycle (setMaxBufferSize size s) = lifecycle s.
Proof.
  unfold setOutput, setLogFile, setLogLevel, setFlushFrequency, setMaxBufferSize.
  destruct (isStop s); simpl.
  - repeat split.
    + destruct o; [destruct (negb isAllowed && Ofstream.is_open (logStream s))|];
        reflexivity.
    + destruct (Ofstream.is_open (logStream s)); simpl;
        destruct (pathToFile lib logPath _ _); reflexivity.
  - repeat split.
Qed.

(** X3. No configuration function, in whatever state it is called,
    changes the flags of the life cycle, the thread, the cached time or
    either buffer; the three functions that set a number or the level
    leave the stream and the sink flags alone as well. *)
Theorem configuration_calls_keep_lifecycle
        (lib : LoggingLib) (o : Output) (isAllowed : bool) (logPath : string)
        (level : Level) (fre size : N) (s : LogHandler) :
  lifecycle (setOutput o isAllowed s) = lifecycle s
  /\ lifecycle (setLogFile lib logPath s) = lifecycle s
  /\ lifecycle (setLogLevel level s) = lifecycle s
  /\ lifecycle (setFlushFrequency fre s) = lifecycle s
  /\ lifecycle (setMaxBufferSize size s) = lifecycle s
  /\ (logStream (setLogLevel level s), output (setLogLevel level s))
     = (logStream s, output s)
  /\ (logStream (setFlushFrequency fre s), output (setFlushFrequency fre s))
     = (logStream s, output s)
  /\ (logStream (setMaxBufferSize size s), output (setMaxBufferSize size s))
     = (logStream s, output s).
Proof.
  destruct (setters_keep_lifecycle lib o isAllowed logPath level fre size s)
    as (H1 & H2 & H3 & H4 & H5).
  repeat (split; [assumption|]).
  unfold setLogLevel, setFlushFrequency, setMaxBufferSize.
  destruct (isStop s); repeat split.
Qed.

(** ** Calls of [log] on a running engine *)

Lemma with_buffers_same (s : LogHandler) :
  with_buffers (logReadBuffer s) (logWriteBuffer s) s = s.
Proof. now destruct s. Qed.

(** X4. A sequence of calls of [log] on a running engine never throws,
    whatever the length of the read buffer, and leaves in the read
    buffer, after what it held, exactly the records of the calls whose
    level passes [isLevelAvailable], in the order of the calls; nothing
    else of the handler changes. *)
Theorem log_calls_store_the_available_levels
        (lib : LoggingLib) (calls : list LogCall) (s : LogHandler) :
  isStop s = false ->
  log_calls lib calls s
  = Returns
      (with_buffers
         (logReadBuffer s
            ++ map (fun c => formatOutput lib (call_level c) (call_msg c)
                               (call_file c) (call_func c) (call_line c) s)
                   (filter (fun c => isLevelAvailable (call_level c) s) calls))
         (logWriteBuffer s) s).
Proof.
  revert s. induction calls as [|c rest IH]; intros s Hrun; simpl.
  - now rewrite app_nil_r, with_buffers_same.
  - unfold log, isLevelAvailable at 1.
    destruct (level_lt (call_level c) (logLevel s)) eqn:Hlvl; simpl.
    + apply IH, Hrun.
    + unfold log_locked. rewrite Hrun.
      rewrite IH by exact Hrun. simpl.
      now rewrite <- app_assoc.
Qed.

Lemma log_calls_store_the_available_levels_witness :
  match log_calls Sample.lib sample_calls (snd sample_inited) with
  | Returns s' =>
      map toFile (logReadBuffer s')
      = [("WARN -> [test.cpp::whiteBox::39] Sun Sep 20 09:32:42 2015 >> Warning Test"
            ++ nl)%string;
         ("ERROR -> [test.cpp::whiteBox::41] Sun Sep 20 09:32:42 2015 >> Test 0"
            ++ nl)%string]
  | _ => False
  end.
Proof.
  rewrite (log_calls_store_the_available_levels Sample.lib sample_calls
             (snd sample_inited) eq_refl).
  reflexivity.
Defined.

(** ** What [init] changes and when it throws *)

Section InitFacts.

Context (lib : LoggingLib) {World : Type} (os : Posix World).

Lemma pop_back_nl (t : string) : pop_back (t ++ nl) = t.
Proof.
  induction t as [|c t IH]; [reflexivity|].
  simpl. rewrite IH. destruct t; reflexivity.
Qed.

(** The locked section of [init] changes [isStop], the cached time and
    the stream; everything else stays. *)
Lemma init_locked_frame ctime e s :
  match init_locked lib os ctime e s with
  | Returns (_, s') | Throws _ (_, s') =>
      configuration s' = configuration s
      /\ logReadBuffer s' = logReadBuffer s
      /\ logWriteBuffer s' = logWriteBuffer s
      /\ isEngineReady s' = isEngineReady s
      /\ isCloseEngine s' = isCloseEngine s
      /\ outputThread s' = outputThread s
      /\ isStop s' = false
      /\ currentTime s' = pop_back ctime
  | Terminates => False
  end.
Proof.
  unfold init_locked.
  set (s2 := freshCurrentTime ctime (with_isStop false s)).
  destruct (at_ (output s2) FILE).
  - pose proof (openLogStream_obj lib os e s2) as H.
    destruct (openLogStream lib os e s2) as [[e' s']|x [e' s']|]; [| |exact H].
    + destruct H as [ok ->]. repeat split.
    + destruct H as [_ ->]. repeat split.
  - repeat split.
Qed.

(** X5. However [init] comes back, by a return or by an exception, it
    has started the thread, cleared [isStop] and stored the time text
    without its last byte (the newline [ctime] ends with), and it has
    left the configuration, both buffers and the ready and close flags as
    they were. With the file sink disabled it makes no system call,
    prints nothing and leaves the stream alone. *)
Theorem init_changes_only_the_life_cycle ctime e s :
  outputThread s = false ->
  match init lib os ctime e s with
  | Returns (e', s') | Throws _ (e', s') =>
      configuration s' = configuration s
      /\ logReadBuffer s' = logReadBuffer s
      /\ logWriteBuffer s' = logWriteBuffer s
      /\ isEngineReady s' = isEngineReady s
      /\ isCloseEngine s' = isCloseEngine s
      /\ outputThread s' = true
      /\ isStop s' = false
      /\ currentTime s' = pop_back ctime
      /\ (forall t, ctime = (t ++ nl)%string -> currentTime s' = t)
      /\ (at_FILE (output s) = false -> e' = e /\ logStream s' = logStream s)
  | Terminates => False
  end.
Proof.
  intros Hthr. unfold init, init_spawn. rewrite Hthr.
  pose proof (init_locked_frame ctime e (with_outputThread true s)) as H.
  assert (Hoff : at_FILE (output s) = false ->
                 init_locked lib os ctime e (with_outputThread true s)
                 = Returns (e, freshCurrentTime ctime
                                 (with_isStop false (with_outputThread true s)))).
  { intros Hf. unfold init_locked. simpl. now rewrite Hf. }
  destruct (init_locked lib os ctime e (with_outputThread true s))
    as [[e' s']|x [e' s']|]; [| |exact H];
    destruct H as (H1 & H2 & H3 & H4 & H5 & H6 & H7 & H8);
    repeat (split; [assumption|]);
    (split; [intros t ->; rewrite H8; apply pop_back_nl|]);
    intros Hf; specialize (Hoff Hf); try discriminate.
  injection Hoff as -> ->. split; reflexivity.
Qed.

Lemma createDirs_empty (e : Env World) : createDirs os "" 0 0 e = (e, None).
Proof. reflexivity. Qed.

(** X6. With the file sink enabled, when the directory is the empty
    string (the default) or can be reached and written, [init] does not
    throw, prints nothing and creates no directory: it goes straight to
    opening the file, and the stream is open, and empty, exactly when the
    system opened it. *)
Theorem init_opens_without_creating_directories ctime e s :
  outputThread s = false ->
  at_FILE (output s) = true ->
  logDir s = ""%string
  \/ (sys_access os (fs e) (c_str (logDir s)) F_OK = true
      /\ sys_access os (fs e) (c_str (logDir s)) W_OK = true) ->
  exists e' s',
    init lib os ctime e s = Returns (e', s')
    /\ cout e' = cout e
    /\ match sys_open_app os (fs e)
               (c_str (dirAndFileToPath lib (logDir s) (logFile s))) with
       | Some w' =>
           fs e' = w'
           /\ logStream s'
              = {| Ofstream.is_open := true; Ofstream.pending := [];
                   Ofstream.file := [] |}
       | None =>
           fs e' = fs e /\ Ofstream.is_open (logStream s') = false
       end.
Proof.
  intros Hthr Hfile Hdir.
  unfold init, init_spawn. rewrite Hthr.
  unfold init_locked. simpl. rewrite Hfile.
  unfold openLogStream.
  set (s2 := freshCurrentTime ctime (with_isStop false (with_outputThread true s))).
  set (s1 := if Ofstream.is_open (logStream s2)
             then with_logStream (Ofstream.close (logStream s2)) s2 else s2).
  assert (Hd1 : logDir s1 = logDir s)
    by (unfold s1; destruct (Ofstream.is_open (logStream s2)); reflexivity).
  assert (Hf1 : logFile s1 = logFile s)
    by (unfold s1; destruct (Ofstream.is_open (logStream s2)); reflexivity).
  assert (Ho1 : Ofstream.is_open (logStream s1) = false).
  { unfold s1. destruct (Ofstream.is_open (logStream s2)) eqn:Ho; simpl.
    - apply close_not_open.
    - exact Ho. }
  assert (Hloop :
            (if negb (sys_access os (fs e) (c_str (logDir s1)) F_OK)
                || negb (sys_access os (fs e) (c_str (logDir s1)) W_OK)
             then createDirs os (logDir s1) (String.length (logDir s1)) 0 e
             else (e, None)) = (e, None)).
  { rewrite Hd1. destruct Hdir as [Hempty|[Hfok Hwok]].
    - rewrite Hempty. simpl. now destruct (_ || _).
    - now rewrite Hfok, Hwok. }
  rewrite Hloop, Hd1, Hf1.
  destruct (sys_open_app os (fs e)
              (c_str (dirAndFileToPath lib (logDir s) (logFile s)))) as [w'|].
  - eexists. eexists. split; [reflexivity|]. split; [reflexivity|].
    split; [reflexivity|]. simpl. unfold Ofstream.open. now rewrite Ho1.
  - eexists. eexists. split; [reflexivity|]. split; [reflexivity|].
    split; [reflexivity|]. simpl. unfold Ofstream.open. now rewrite Ho1.
Qed.


End InitFacts.

Lemma init_changes_only_the_life_cycle_witness :
  configuration (snd sample_inited) = configuration newHandler
  /\ isStop (snd sample_inited) = false
  /\ currentTime (snd sample_inited) = "Sun Sep 20 09:32:42 2015"%string.
Proof.
  pose proof (init_changes_only_the_life_cycle Sample.lib Sample.writable
                Sample.now Sample.env0 newHandler eq_refl) as H.
  change (init Sample.lib Sample.writable Sample.now Sample.env0 newHandler)
    with (Returns sample_inited) in H.
  destruct sample_inited as [e' s'] eqn:Hs.
  destruct H as (Hc & _ & _ & _ & _ & _ & Hstop & _ & Ht & _).
  split; [exact Hc|]. split; [exact Hstop|].
  apply Ht. reflexivity.
Defined.

Lemma init_opens_without_creating_directories_witness :
  exists e' s',
    init Sample.lib Sample.readonly Sample.now Sample.env0 newHandler
    = Returns (e', s')
    /\ cout e' = [].
Proof.
  destruct (init_opens_without_creating_directories Sample.lib Sample.readonly
              Sample.now Sample.env0 newHandler eq_refl eq_refl
              (or_introl eq_refl))
    as (e' & s' & Hinit & Hcout & _).
  exists e', s'. split; [exact Hinit|exact Hcout].
Defined.


(** ** Bytes of a rendered record *)

Section RenderedBytes.

Context (lib : LoggingLib).

Local Open Scope string_scope.

Lemma c_str_stops_at_nul (a b : string) :
  no_nul a = true -> c_str (a ++ String NUL b) = a.
Proof.
  induction a as [|c a IH]; simpl; intros H; [reflexivity|].
  apply andb_true_iff in H. destruct H as [Hc Ha].
  destruct (Ascii.eqb c NUL); [discriminate|].
  now rewrite IH.
Qed.

Lemma no_char_app (c : ascii) (a b : string) :
  no_char c (a ++ b) = no_char c a && no_char c b.
Proof.
  induction a as [|x a IH]; simpl; [reflexivity|].
  now rewrite IH, andb_assoc.
Qed.

Lemma no_char_c_str (c : ascii) (s : string) :
  no_char c s = true -> no_char c (c_str s) = true.
Proof.
  induction s as [|x s IH]; simpl; intros H; [reflexivity|].
  apply andb_true_iff in H. destruct H as [Hx Hs].
  destruct (Ascii.eqb x NUL); [reflexivity|].
  simpl. now rewrite Hx, IH.
Qed.

Lemma no_nul_c_str (s : string) : no_char NUL (c_str s) = true.
Proof.
  induction s as [|x s IH]; simpl; [reflexivity|].
  destruct (Ascii.eqb x NUL) eqn:Hx; [reflexivity|].
  simpl. now rewrite Hx, IH.
Qed.

Lemma no_char_take (c : ascii) (n : nat) :
  forall s, no_char c s = true -> no_char c (take n s) = true.
Proof.
  induction n as [|n IH]; intros [|x s]; simpl; intros H; try reflexivity.
  apply andb_true_iff in H. destruct H as [Hx Hs].
  now rewrite Hx, IH.
Qed.

Lemma no_nul_no_char (s : string) : no_nul s = no_char NUL s.
Proof. induction s as [|x s IH]; simpl; [reflexivity|now rewrite IH]. Qed.

(** The decimal text of a number holds digits only: no NUL, no
    newline. *)
Lemma utoa_no_nul (n : N) : no_char NUL (utoa n) = true.
Proof.
  unfold utoa, NilZero.string_of_uint.
  assert (H : forall d, no_char NUL (NilEmpty.string_of_uint d) = true)
    by (induction d; simpl; auto).
  destruct (N.to_uint n); try apply H. reflexivity.
Qed.

Lemma utoa_no_newline (n : N) : no_char LF (utoa n) = true.
Proof.
  unfold utoa, NilZero.string_of_uint.
  assert (H : forall d, no_char LF (NilEmpty.string_of_uint d) = true)
    by (induction d; simpl; auto).
  destruct (N.to_uint n); try apply H. reflexivity.
Qed.

Lemma take_app_short (n : nat) :
  forall a b, n <= String.length a -> take n (a ++ b) = take n a.
Proof.
  induction n as [|n IH]; intros a b H; [now destruct a, b|].
  destruct a as [|x a]; simpl in *; [lia|].
  rewrite IH; [reflexivity|lia].
Qed.

(** The part of the rendering before the final newline. *)
Lemma rendering_body level msg file func line s :
  rendering lib level msg file func line s
  = (c_str (getLogLevel lib level) ++ " -> [" ++ c_str file ++ "::"
       ++ c_str func ++ "::" ++ utoa line ++ "] " ++ c_str (currentTime s)
       ++ " >> " ++ c_str msg) ++ nl.
Proof. unfold rendering. now rewrite <- !append_assoc. Qed.

(** X8. A NUL byte in the message, the file name or the function name
    ends that text in the record: what follows the first NUL is left
    out, with no error. *)
Theorem formatOutput_stops_a_text_at_NUL level a b msg file func line s :
  no_nul a = true ->
  formatOutput lib level (a ++ String NUL b) file func line s
  = formatOutput lib level a file func line s
  /\ formatOutput lib level msg (a ++ String NUL b) func line s
     = formatOutput lib level msg a func line s
  /\ formatOutput lib level msg file (a ++ String NUL b) line s
     = formatOutput lib level msg file a line s.
Proof.
  intros Ha. unfold formatOutput, rendering.
  now rewrite c_str_stops_at_nul, (c_str_no_nul a) by assumption.
Qed.

(** X9. A rendered record never holds a NUL byte, in its file form or
    in its console form, whatever the arguments of the call hold. *)
Theorem formatOutput_has_no_NUL level msg file func line s :
  no_nul (toFile (formatOutput lib level msg file func line s)) = true
  /\ no_nul (toConsole (formatOutput lib level msg file func line s)) = true.
Proof.
  assert (Hfile : no_char NUL (toFile (formatOutput lib level msg file func line s))
                  = true).
  { simpl. unfold snprintf. apply no_char_take.
    unfold rendering.
    rewrite !no_char_app, !no_nul_c_str, utoa_no_nul. reflexivity. }
  rewrite !no_nul_no_char. split; [exact Hfile|].
  rewrite toConsole_formatOutput, no_char_app, Hfile.
  now destruct level.
Qed.

(** X10. When neither the level name, the file name, the function name,
    the cached time nor the message holds a newline, the file form of
    the record holds no newline except possibly as its last byte: it is
    one line. It ends with the newline when the line fits in 299
    bytes. *)
Theorem formatOutput_is_one_line level msg file func line s :
  no_char LF (getLogLevel lib level) = true ->
  no_char LF file = true -> no_char LF func = true ->
  no_char LF (currentTime s) = true -> no_char LF msg = true ->
  exists body,
    no_char LF body = true
    /\ (toFile (formatOutput lib level msg file func line s) = body ++ nl
        \/ toFile (formatOutput lib level msg file func line s) = body)
    /\ (String.length (rendering lib level msg file func line s) <= 299 ->
        toFile (formatOutput lib level msg file func line s) = body ++ nl).
Proof.
  intros Hl Hf Hfn Ht Hm.
  set (body0 := c_str (getLogLevel lib level) ++ " -> [" ++ c_str file ++ "::"
                  ++ c_str func ++ "::" ++ utoa line ++ "] "
                  ++ c_str (currentTime s) ++ " >> " ++ c_str msg).
  assert (Hbody : no_char LF body0 = true).
  { unfold body0.
    rewrite !no_char_app, !no_char_c_str, utoa_no_newline by assumption.
    reflexivity. }
  assert (Hr : rendering lib level msg file func line s = body0 ++ nl)
    by apply rendering_body.
  simpl. unfold snprintf. rewrite Hr. simpl Nat.sub.
  destruct (Nat.le_gt_cases (String.length (body0 ++ nl)) 299) as [Hfit|Hlong].
  - exists body0. rewrite take_all by exact Hfit.
    split; [exact Hbody|]. split; [now left|reflexivity].
  - exists (take 299 body0).
    rewrite length_append in Hlong. simpl in Hlong.
    rewrite take_app_short by lia.
    split; [now apply no_char_take|]. split; [now right|].
    intros Hfit. rewrite length_append in Hfit. simpl in Hfit. lia.
Qed.

End RenderedBytes.

Lemma formatOutput_stops_a_text_at_NUL_witness :
  toFile (formatOutput Sample.lib Info ("Hello" ++ String NUL " Gallon") "test.cpp"
            "main" 71 (freshCurrentTime Sample.now newHandler))
  = ("INFO -> [test.cpp::main::71] Sun Sep 20 09:32:42 2015 >> Hello" ++ nl)%string.
Proof.
  destruct (formatOutput_stops_a_text_at_NUL Sample.lib Info "Hello" " Gallon"
              "" "test.cpp" "main" 71 (freshCurrentTime Sample.now newHandler)
              eq_refl) as (Hmsg & _).
  rewrite Hmsg. reflexivity.
Defined.

Lemma formatOutput_is_one_line_witness :
  exists body,
    no_char LF body = true
    /\ toFile (formatOutput Sample.lib Info "Hello Gallon12.124300" "test.cpp" "main"
                 71 (freshCurrentTime Sample.now newHandler))
       = (body ++ nl)%string.
Proof.
  destruct (formatOutput_is_one_line Sample.lib Info "Hello Gallon12.124300"
              "test.cpp" "main" 71 (freshCurrentTime Sample.now newHandler)
              eq_refl eq_refl eq_refl eq_refl eq_refl)
    as (body & Hbody & _ & Hfit).
  exists body. split; [exact Hbody|].
  apply Hfit. vm_compute. lia.
Defined.

(** ** The process: what never goes back *)

Section Monotone.

Context (lib : LoggingLib) {World : Type} (os : Posix World).

Lemma lifecycle_fields (s s' : LogHandler) :
  lifecycle s' = lifecycle s ->
  isEngineReady s' = isEngineReady s
  /\ isCloseEngine s' = isCloseEngine s
  /\ isStop s' = isStop s
  /\ outputThread s' = outputThread s
  /\ currentTime s' = currentTime s
  /\ logReadBuffer s' = logReadBuffer s
  /\ logWriteBuffer s' = logWriteBuffer s.
Proof. unfold lifecycle. intros H. injection H. auto 10. Qed.

(** What a configuration call does to the flags and, on a running
    engine, to the configuration. *)
Lemma setter_step (f : LogHandler -> LogHandler) (s : LogHandler) :
  lifecycle (f s) = lifecycle s ->
  (isStop s = false -> f s = s) ->
  (isEngineReady s = true -> isEngineReady (f s) = true)
  /\ (isCloseEngine s = true -> isCloseEngine (f s) = true)
  /\ (outputThread s = true -> outputThread (f s) = true)
  /\ (isStop s = false ->
      isStop (f s) = false /\ configuration (f s) = configuration s).
Proof.
  intros Hl Hnoop.
  destruct (lifecycle_fields s (f s) Hl) as (H1 & H2 & H3 & H4 & _).
  rewrite H1, H2, H4. repeat split; auto.
  - now rewrite H3.
  - now rewrite Hnoop.
Qed.

Lemma step_never_goes_back l (p p' : Process World) :
  step lib os l p = Some p' ->
  (isEngineReady (obj p) = true -> isEngineReady (obj p') = true)
  /\ (isCloseEngine (obj p) = true -> isCloseEngine (obj p') = true)
  /\ (outputThread (obj p) = true -> outputThread (obj p') = true)
  /\ (isStop (obj p) = false ->
      isStop (obj p') = false
      /\ configuration (obj p') = configuration (obj p)).
Proof.
  unfold step. destruct (alive p); [|discriminate].
  destruct l; simpl; intros Hstep.
  - injection Hstep as <-. simpl. apply setter_step.
    + apply (setters_keep_lifecycle lib o isAllowed "" Debug 0 0).
    + intros Hr. unfold setOutput. now rewrite Hr.
  - injection Hstep as <-. simpl. apply setter_step.
    + apply (setters_keep_lifecycle lib FILE false logPath Debug 0 0).
    + intros Hr. unfold setLogFile. now rewrite Hr.
  - injection Hstep as <-. simpl. apply setter_step.
    + apply (setters_keep_lifecycle lib FILE false "" level 0 0).
    + intros Hr. unfold setLogLevel. now rewrite Hr.
  - injection Hstep as <-. simpl. apply setter_step.
    + apply (setters_keep_lifecycle lib FILE false "" Debug fre 0).
    + intros Hr. unfold setFlushFrequency. now rewrite Hr.
  - injection Hstep as <-. simpl. apply setter_step.
    + apply (setters_keep_lifecycle lib FILE false "" Debug 0 size).
    + intros Hr. unfold setMaxBufferSize. now rewrite Hr.
  - unfold init_spawn in Hstep.
    destruct (outputThread (obj p)) eqn:Ht; injection Hstep as <-; simpl;
      repeat split; auto.
  - destruct (initPc p); try discriminate.
    pose proof (init_locked_frame lib os ctime (env p) (obj p)) as H.
    destruct (init_locked lib os ctime (env p) (obj p)) as [[e s]|x [e s]|];
      [| |contradiction]; injection Hstep as <-; simpl;
      destruct H as (Hc & _ & _ & Hr & Hcl & Ht & Hs & _);
      rewrite Hr, Hcl, Ht; repeat split; auto.
  - destruct (level_lt level (logLevel (obj p))); injection Hstep as <-;
      simpl; repeat split; auto.
  - destruct (nth_error (inflight p) i); [|discriminate].
    unfold log_locked in Hstep.
    destruct (isStop (obj p)) eqn:Hs; injection Hstep as <-; simpl;
      repeat split; auto; discriminate.
  - destruct (worker p); try discriminate. injection Hstep as <-. simpl.
    unfold announce.
    destruct (isEngineReady (obj p)) eqn:Hr; simpl; repeat split; auto.
  - destruct (worker p); try discriminate. injection Hstep as <-. simpl.
    repeat split; auto.
  - destruct (worker p); try discriminate.
    destruct (match r with Notified => signalled p | _ => true end);
      [|discriminate].
    unfold after_wait in Hstep. simpl in Hstep.
    destruct (isCloseEngine (obj p) && is_empty (logReadBuffer (obj p)));
      injection Hstep as <-; simpl; repeat split; auto.
  - destruct (worker p); try discriminate.
    destruct (logWriteBuffer (obj p)); [discriminate|].
    injection Hstep as <-. simpl.
    destruct (at_FILE (output (obj p))); simpl; repeat split; auto.
  - destruct (worker p); try discriminate.
    destruct (logWriteBuffer (obj p)); [|discriminate].
    injection Hstep as <-. simpl. unfold flush_file, at_.
    destruct (at_FILE (output (obj p))); simpl; repeat split; auto.
  - destruct (dtor p); try discriminate. injection Hstep as <-.
    unfold dtor_check.
    destruct (isEngineReady (obj p)) eqn:Hr; simpl; repeat split; auto;
      discriminate.
  - destruct (dtor p); try discriminate. injection Hstep as <-.
    unfold dtor_check.
    destruct (isEngineReady (obj p)) eqn:Hr; simpl; repeat split; auto;
      discriminate.
Qed.

(** X11. Along any execution nothing of the life cycle goes back: once
    set, [isEngineReady] and [isCloseEngine] stay set, the thread object
    stays joinable, and once [init] has cleared [isStop] it stays
    cleared; from then on no call and no step changes the configuration
    (sink flags, directory, file name, minimum level, flush period,
    threshold). *)
Theorem life_cycle_never_goes_back (ls : list label) (p q : Process World) :
  run lib os ls p = Some q ->
  (isEngineReady (obj p) = true -> isEngineReady (obj q) = true)
  /\ (isCloseEngine (obj p) = true -> isCloseEngine (obj q) = true)
  /\ (outputThread (obj p) = true -> outputThread (obj q) = true)
  /\ (isStop (obj p) = false ->
      isStop (obj q) = false
      /\ configuration (obj q) = configuration (obj p)).
Proof.
  revert p. induction ls as [|l ls IH]; simpl; intros p Hrun.
  - injection Hrun as <-. auto.
  - destruct (step lib os l p) as [p1|] eqn:Hstep; [|discriminate].
    destruct (step_never_goes_back l p p1 Hstep) as (H1 & H2 & H3 & H4).
    destruct (IH p1 Hrun) as (K1 & K2 & K3 & K4).
    split; [auto|]. split; [auto|]. split; [auto|].
    intros Hs. destruct (H4 Hs) as [Hs1 Hc1].
    destruct (K4 Hs1) as [Hs2 Hc]. split; congruence.
Qed.

End Monotone.

(** ** The process: further invariants *)

Section FurtherInvariants.

Context (lib : LoggingLib) {World : Type} (os : Posix World).

(** Only the destructor sets [isCloseEngine], and it does so on its way
    to [join]. *)
Lemma step_close_flag l (p p' : Process World) :
  step lib os l p = Some p' ->
  (isCloseEngine (obj p) = true -> dtor p = DJoin) ->
  isCloseEngine (obj p') = true -> dtor p' = DJoin.
Proof.
  unfold step. destruct (alive p); [|discriminate].
  destruct l; simpl; intros Hstep Hold.
  - injection Hstep as <-. simpl.
    destruct (setters_keep_lifecycle lib o isAllowed "" Debug 0 0 (obj p))
      as (H & _).
    apply lifecycle_fields in H. destruct H as (_ & -> & _). exact Hold.
  - injection Hstep as <-. simpl.
    destruct (setters_keep_lifecycle lib FILE false logPath Debug 0 0 (obj p))
      as (_ & H & _).
    apply lifecycle_fields in H. destruct H as (_ & -> & _). exact Hold.
  - injection Hstep as <-. simpl.
    destruct (setters_keep_lifecycle lib FILE false "" level 0 0 (obj p))
      as (_ & _ & H & _).
    apply lifecycle_fields in H. destruct H as (_ & -> & _). exact Hold.
  - injection Hstep as <-. simpl.
    destruct (setters_keep_lifecycle lib FILE false "" Debug fre 0 (obj p))
      as (_ & _ & _ & H & _).
    apply lifecycle_fields in H. destruct H as (_ & -> & _). exact Hold.
  - injection Hstep as <-. simpl.
    destruct (setters_keep_lifecycle lib FILE false "" Debug 0 size (obj p))
      as (_ & _ & _ & _ & H).
    apply lifecycle_fields in H. destruct H as (_ & -> & _). exact Hold.
  - unfold init_spawn in Hstep.
    destruct (outputThread (obj p)); injection Hstep as <-; exact Hold.
  - destruct (initPc p); try discriminate.
    pose proof (init_locked_frame lib os ctime (env p) (obj p)) as H.
    destruct (init_locked lib os ctime (env p) (obj p)) as [[e s]|x [e s]|];
      [| |contradiction]; injection Hstep as <-; simpl;
      destruct H as (_ & _ & _ & _ & -> & _); exact Hold.
  - destruct (level_lt level (logLevel (obj p))); injection Hstep as <-;
      exact Hold.
  - destruct (nth_error (inflight p) i); [|discriminate].
    unfold log_locked in Hstep.
    destruct (isStop (obj p)); injection Hstep as <-; exact Hold.
  - destruct (worker p); try discriminate. injection Hstep as <-. simpl.
    unfold announce. destruct (isEngineReady (obj p)); exact Hold.
  - destruct (worker p); try discriminate. injection Hstep as <-. exact Hold.
  - destruct (worker p); try discriminate.
    destruct (match r with Notified => signalled p | _ => true end);
      [|discriminate].
    unfold after_wait in Hstep. simpl in Hstep.
    destruct (isCloseEngine (obj p) && is_empty (logReadBuffer (obj p)));
      injection Hstep as <-; exact Hold.
  - destruct (worker p); try discriminate.
    destruct (logWriteBuffer (obj p)); [discriminate|].
    injection Hstep as <-. simpl.
    destruct (at_FILE (output (obj p))); exact Hold.
  - destruct (worker p); try discriminate.
    destruct (logWriteBuffer (obj p)); [|discriminate].
    injection Hstep as <-. simpl. unfold flush_file, at_.
    destruct (at_FILE (output (obj p))); exact Hold.
  - destruct (dtor p) eqn:Hd; try discriminate. injection Hstep as <-.
    unfold dtor_check. destruct (isEngineReady (obj p)); simpl; auto.
    intros Hc. specialize (Hold Hc). discriminate.
  - destruct (dtor p) eqn:Hd; try discriminate. injection Hstep as <-.
    unfold dtor_check. destruct (isEngineReady (obj p)); simpl; auto.
Qed.

Lemma close_flag_set_by_destructor (w : World) (p : Process World) :
  reachable lib os w p -> isCloseEngine (obj p) = true -> dtor p = DJoin.
Proof.
  intros [ls Hrun]. revert Hrun.
  assert (H0 : isCloseEngine (obj (start w)) = true -> dtor (start w) = DJoin)
    by discriminate.
  revert H0. generalize (start w).
  induction ls as [|l ls IH]; simpl; intros p0 H0 Hrun.
  - now injection Hrun as <-.
  - destruct (step lib os l p0) as [p1|] eqn:Hstep; [|discriminate].
    apply (IH p1); [|exact Hrun].
    apply (step_close_flag l p0 p1 Hstep H0).
Qed.

(** X12. The output thread ends the process only at the request of the
    destructor: in every execution [isCloseEngine] is set only while the
    destructor is at [join], so the thread has called [exit(0)] only
    then; and as long as no thread has been created the destructor has
    not gone past its wait and [isCloseEngine] is not set. *)
Theorem exit_only_at_the_destructor_request (w : World) (p : Process World) :
  reachable lib os w p ->
  (isCloseEngine (obj p) = true -> dtor p = DJoin)
  /\ (worker p = WExit -> dtor p = DJoin)
  /\ (worker p = WNone ->
      isEngineReady (obj p) = false
      /\ isCloseEngine (obj p) = false
      /\ dtor p <> DJoin).
Proof.
  intros Hreach. pose proof (reachable_Inv lib os w p Hreach) as HI.
  pose proof (close_flag_set_by_destructor w p Hreach) as Hc.
  split; [exact Hc|]. split.
  - intros Hw. apply Hc. apply (inv_exit p HI Hw).
  - intros Hw.
    assert (Hr : isEngineReady (obj p) = false).
    { destruct (isEngineReady (obj p)) eqn:Hr; [|reflexivity].
      now destruct (inv_ready p HI Hr). }
    assert (Hcl : isCloseEngine (obj p) = false).
    { destruct (isCloseEngine (obj p)) eqn:Hcl; [|reflexivity].
      rewrite (inv_close p HI Hcl) in Hr. discriminate. }
    split; [exact Hr|]. split; [exact Hcl|].
    intros Hd. rewrite (inv_join p HI Hd) in Hcl. discriminate.
Qed.

Lemma step_stopped_idle l (p p' : Process World) :
  Inv p -> step lib os l p = Some p' -> stopped_idle p -> stopped_idle p'.
Proof.
  intros HI Hstep Hold Hstop'.
  assert (Hstop : isStop (obj p) = true).
  { destruct (isStop (obj p)) eqn:Hs; [reflexivity|].
    destruct (step_never_goes_back lib os l p p' Hstep) as (_ & _ & _ & H).
    destruct (H Hs) as [H' _]. congruence. }
  destruct (Hold Hstop) as (Hcout & Hbase & Hstream & Hw).
  destruct (history_empty p HI Hstop) as (_ & Hwb & Hrb).
  revert Hstep Hstop'. unfold step. destruct (alive p); [|discriminate].
  destruct l; simpl; intros Hstep Hstop'.
  - injection Hstep as <-. simpl in *. repeat (split; [assumption|]).
    split; [|assumption].
    unfold setOutput. rewrite Hstop. simpl.
    destruct o; simpl; rewrite Hstream; simpl; rewrite ?andb_false_r; simpl;
      [assumption|reflexivity].
  - injection Hstep as <-. simpl in *. repeat (split; [assumption|]).
    split; [|assumption].
    unfold setLogFile. rewrite Hstop. simpl. rewrite Hstream. simpl.
    now destruct (pathToFile lib logPath _ _).
  - injection Hstep as <-. simpl in *. repeat (split; [assumption|]).
    split; [|assumption].
    unfold setLogLevel. now rewrite Hstop.
  - injection Hstep as <-. simpl in *. repeat (split; [assumption|]).
    split; [|assumption].
    unfold setFlushFrequency. now rewrite Hstop.
  - injection Hstep as <-. simpl in *. repeat (split; [assumption|]).
    split; [|assumption].
    unfold setMaxBufferSize. now rewrite Hstop.
  - unfold init_spawn in Hstep.
    destruct (outputThread (obj p)); injection Hstep as <-; simpl;
      repeat split; try assumption; discriminate.
  - destruct (initPc p); try discriminate.
    pose proof (init_locked_frame lib os ctime (env p) (obj p)) as H.
    destruct (init_locked lib os ctime (env p) (obj p)) as [[e s]|x [e s]|];
      [| |contradiction]; injection Hstep as <-; simpl in Hstop';
      destruct H as (_ & _ & _ & _ & _ & _ & Hs & _); congruence.
  - destruct (level_lt level (logLevel (obj p))); injection Hstep as <-;
      simpl; repeat split; assumption.
  - destruct (nth_error (inflight p) i); [|discriminate].
    unfold log_locked in Hstep. rewrite Hstop in Hstep.
    injection Hstep as <-. simpl. repeat split; assumption.
  - destruct (worker p); try discriminate. injection Hstep as <-. simpl.
    unfold announce. destruct (isEngineReady (obj p)); simpl;
      repeat split; try assumption; discriminate.
  - destruct (worker p); try discriminate. injection Hstep as <-. simpl.
    unfold inner_test. rewrite Hwb. simpl.
    repeat split; try assumption; discriminate.
  - destruct (worker p); try discriminate.
    destruct (match r with Notified => signalled p | _ => true end);
      [|discriminate].
    unfold after_wait in Hstep. simpl in Hstep. rewrite Hrb in Hstep.
    simpl in Hstep.
    destruct (isCloseEngine (obj p) && true); injection Hstep as <-; simpl;
      unfold inner_test; simpl; rewrite ?Hrb; simpl;
      repeat split; try assumption; discriminate.
  - destruct (worker p); try discriminate. now contradiction Hw.
  - destruct (worker p); try discriminate. now contradiction Hw.
  - destruct (dtor p); try discriminate. injection Hstep as <-.
    unfold dtor_check.
    destruct (isEngineReady (obj p)); simpl; repeat split; assumption.
  - destruct (dtor p); try discriminate. injection Hstep as <-.
    unfold dtor_check.
    destruct (isEngineReady (obj p)); simpl; repeat split; assumption.
Qed.

Lemma reachable_stopped_idle (w : World) (p : Process World) :
  reachable lib os w p -> stopped_idle p.
Proof.
  intros [ls Hrun]. revert Hrun.
  assert (H0 : stopped_idle (start w))
    by (intros _; simpl; repeat split; discriminate).
  pose proof (Inv_start w) as HI0.
  revert H0 HI0. generalize (start w).
  induction ls as [|l ls IH]; simpl; intros p0 H0 HI0 Hrun.
  - now injection Hrun as <-.
  - destruct (step lib os l p0) as [p1|] eqn:Hstep; [|discriminate].
    apply (IH p1); [| |exact Hrun].
    + apply (step_stopped_idle l p0 p1 HI0 Hstep H0).
    + apply (step_preserves lib os l p0 p1 HI0 Hstep).
Qed.

(** X13. As long as [isStop] is set, that is until the locked section
    of [init] has run, nothing has happened whatever was called: no
    record has been stored (the calls of [log] all threw or were
    filtered), both buffers are empty, nothing was printed on [cout],
    and the stream has no file and holds nothing. *)
Theorem nothing_happens_before_init (w : World) (p : Process World) :
  reachable lib os w p ->
  isStop (obj p) = true ->
  appended p = [] /\ drained p = []
  /\ logReadBuffer (obj p) = [] /\ logWriteBuffer (obj p) = []
  /\ cout (env p) = []
  /\ logStream (obj p) = Ofstream.closed.
Proof.
  intros Hreach Hstop.
  pose proof (reachable_Inv lib os w p Hreach) as HI.
  destruct (history_empty p HI Hstop) as (Hd & Hw & Hr).
  destruct (reachable_stopped_idle w p Hreach Hstop) as (Hc & _ & Hs & _).
  split; [apply (inv_stopped p HI Hstop)|].
  repeat (split; [assumption|]). assumption.
Qed.

Lemma Forall_remove_nth {A : Type} (P : A -> Prop) (i : nat) :
  forall l, Forall P l -> Forall P (remove_nth i l).
Proof.
  induction i as [|i IH]; intros [|x l] H; simpl; auto;
    inversion H; subst; auto.
Qed.

(** Every record in flight or pushed on the read buffer came out of
    [formatOutput]. *)
Lemma step_all_rendered l (p p' : Process World) :
  step lib os l p = Some p' ->
  Forall (rendered lib) (inflight p) /\ Forall (rendered lib) (appended p) ->
  Forall (rendered lib) (inflight p') /\ Forall (rendered lib) (appended p').
Proof.
  unfold step. destruct (alive p); [|discriminate].
  intros Hstep [Hin Hap].
  destruct l; simpl in Hstep;
    try (injection Hstep as <-; simpl; split; assumption).
  - destruct (init_spawn (obj p)); injection Hstep as <-; simpl;
      split; assumption.
  - destruct (initPc p); try discriminate.
    destruct (init_locked lib os ctime (env p) (obj p)) as [[e s]|x [e s]|];
      injection Hstep as <-; simpl; split; assumption.
  - destruct (level_lt level (logLevel (obj p))); injection Hstep as <-;
      simpl; split; try assumption.
    apply Forall_app. split; [assumption|].
    constructor; [|constructor].
    now exists level, msg, file, func, line, (obj p).
  - destruct (nth_error (inflight p) i) as [entity|] eqn:Hnth; [|discriminate].
    assert (He : rendered lib entity).
    { apply nth_error_In in Hnth. rewrite Forall_forall in Hin. now apply Hin. }
    unfold log_locked in Hstep.
    destruct (isStop (obj p)); injection Hstep as <-; simpl.
    + split; [now apply Forall_remove_nth|assumption].
    + split; [now apply Forall_remove_nth|].
      apply Forall_app. split; [assumption|]. now constructor.
  - destruct (worker p); try discriminate. injection Hstep as <-.
    simpl. split; assumption.
  - destruct (worker p); try discriminate. injection Hstep as <-.
    simpl. split; assumption.
  - destruct (worker p); try discriminate.
    destruct (match r with Notified => signalled p | _ => true end);
      [|discriminate].
    destruct (after_wait ctime (obj p)); injection Hstep as <-;
      simpl; split; assumption.
  - destruct (worker p); try discriminate.
    destruct (logWriteBuffer (obj p)); [discriminate|].
    injection Hstep as <-. simpl. split; assumption.
  - destruct (worker p); try discriminate.
    destruct (logWriteBuffer (obj p)); [|discriminate].
    injection Hstep as <-. simpl. split; assumption.
  - destruct (dtor p); try discriminate. injection Hstep as <-.
    unfold dtor_check. destruct (isEngineReady (obj p)); simpl; split; assumption.
  - destruct (dtor p); try discriminate. injection Hstep as <-.
    unfold dtor_check. destruct (isEngineReady (obj p)); simpl; split; assumption.
Qed.

Lemma reachable_all_rendered (w : World) (p : Process World) :
  reachable lib os w p ->
  Forall (rendered lib) (inflight p) /\ Forall (rendered lib) (appended p).
Proof.
  intros [ls Hrun]. revert Hrun.
  assert (H0 : Forall (rendered lib) (inflight (start w))
               /\ Forall (rendered lib) (appended (start w)))
    by (split; constructor).
  revert H0. generalize (start w).
  induction ls as [|l ls IH]; simpl; intros p0 H0 Hrun.
  - now injection Hrun as <-.
  - destruct (step lib os l p0) as [p1|] eqn:Hstep; [|discriminate].
    apply (IH p1); [|exact Hrun].
    apply (step_all_rendered l p0 p1 Hstep H0).
Qed.

(** X14. Whatever the threads do, every text the stream of the file
    sink has received takes at most 300 bytes with its NUL, and, with
    both sinks in use, what [cout] has received since [init] is, text
    for text and in the same order, a colour code of one of the four
    levels followed by the text the stream received. *)
Theorem sinks_receive_bounded_matching_texts (w : World) (p : Process World) :
  reachable lib os w p ->
  Ofstream.is_open (logStream (obj p)) = true ->
  Forall (fun t => String.length t + 1 <= 300)
         (Ofstream.file (logStream (obj p)) ++ Ofstream.pending (logStream (obj p)))
  /\ (at_CONSOLE (output (obj p)) = true ->
      exists printed,
        cout (env p) = cout_at_init p ++ printed
        /\ Forall2 (fun c f => exists level, c = (color level ++ f)%string)
                   printed
                   (Ofstream.file (logStream (obj p))
                      ++ Ofstream.pending (logStream (obj p)))).
Proof.
  intros Hreach Ho.
  pose proof (reachable_Inv lib os w p Hreach) as HI.
  destruct (reachable_all_rendered w p Hreach) as [_ Hap].
  rewrite (inv_history p HI) in Hap. apply Forall_app in Hap.
  destruct Hap as [Hd _].
  rewrite (inv_file p HI Ho).
  split.
  - induction Hd as [|e l He _ IH]; simpl; constructor; [|exact IH].
    destruct He as (level & msg & file & func & line & s & ->).
    pose proof (take_length_le 299 (rendering lib level msg file func line s))
      as Hle.
    change (toFile (formatOutput lib level msg file func line s))
      with (take 299 (rendering lib level msg file func line s)).
    lia.
  - intros Hc. exists (map toConsole (drained p)).
    split; [pose proof (inv_cout p HI) as H; now rewrite Hc in H|].
    induction Hd as [|e l He _ IH]; simpl; constructor; [|exact IH].
    destruct He as (level & msg & file & func & line & s & ->).
    now exists level.
Qed.

Lemma drain_steps_no_wake n : filter is_wake (repeat LDrain n) = [].
Proof. induction n; simpl; auto. Qed.

Lemma filter_app_nil {A : Type} (f : A -> bool) (a b : list A) :
  filter f a = [] -> filter f b = [] -> filter f (a ++ b) = [].
Proof. intros Ha Hb. now rewrite filter_app, Ha, Hb. Qed.

(** The output thread comes to [wait_for] with an empty write buffer
    without any return of a wait on the way. *)
Lemma worker_comes_to_wait_directly (p : Process World) :
  Inv p -> terminated p = false ->
  worker p <> WNone -> worker p <> WExit ->
  exists ls q,
    run lib os ls p = Some q
    /\ forallb of_worker ls = true
    /\ filter is_wake ls = []
    /\ terminated q = false /\ worker q = WWait
    /\ logWriteBuffer (obj q) = []
    /\ logReadBuffer (obj q) = logReadBuffer (obj p).
Proof.
  intros HI Ht Hn He.
  destruct (worker p) eqn:Hw; try contradiction.
  - assert (Hwb : logWriteBuffer (obj p) = [])
      by (apply (inv_write p HI); rewrite Hw; discriminate).
    exists [LAnnounce; LEnter]. simpl.
    unfold step at 1, alive. rewrite Ht, Hw. simpl. rewrite Hw.
    unfold step at 1, alive. simpl. rewrite Ht. simpl.
    eexists. split; [reflexivity|]. simpl.
    unfold inner_test, announce.
    destruct (isEngineReady (obj p)); simpl; rewrite Hwb; simpl;
      repeat split; auto.
  - assert (Hwb : logWriteBuffer (obj p) = [])
      by (apply (inv_write p HI); rewrite Hw; discriminate).
    exists [LEnter]. simpl.
    unfold step at 1, alive. rewrite Ht, Hw. simpl. rewrite Hw.
    eexists. split; [reflexivity|]. simpl.
    unfold inner_test. rewrite Hwb. simpl. repeat split; auto.
  - assert (Hwb : logWriteBuffer (obj p) = [])
      by (apply (inv_write p HI); rewrite Hw; discriminate).
    exists [], p. simpl. repeat split; auto.
  - destruct (drain_loop_runs lib os (logWriteBuffer (obj p)) p Ht Hw eq_refl)
      as (q1 & Hrun1 & Ht1 & Hw1 & Hwb1 & Hrd1 & Hc1).
    destruct (back_to_wait lib os q1 Ht1 Hw1 Hwb1)
      as (q2 & Hrun2 & Ht2 & Hw2 & Hwb2 & Hrd2 & Hc2).
    exists (repeat LDrain (List.length (logWriteBuffer (obj p)))
              ++ [LFlush; LAnnounce; LEnter]), q2.
    rewrite run_app, Hrun1, Hrun2, forallb_app, drain_steps_of_worker.
    repeat split; try assumption; try congruence.
    apply filter_app_nil; [apply drain_steps_no_wake|reflexivity].
Qed.

(** X15. No record stays buffered for more than one flush period: from
    any state of an execution in which the output thread exists and the
    process is alive, the output thread, running by itself and with at
    most one return of [wait_for], comes back to its wait with both
    buffers empty and every record pushed so far drained; with a file
    attached all of them are in the file, flushed, and with the console
    sink enabled all of them are on [cout], in the order of the
    pushes. *)
Theorem one_wake_writes_every_record (w : World) (p : Process World) :
  reachable lib os w p ->
  alive p = true ->
  worker p <> WNone ->
  exists ls q,
    run lib os ls p = Some q
    /\ forallb of_worker ls = true
    /\ List.length (filter is_wake ls) <= 1
    /\ worker q = WWait
    /\ logReadBuffer (obj q) = [] /\ logWriteBuffer (obj q) = []
    /\ drained q = appended p
    /\ (Ofstream.is_open (logStream (obj q)) = true ->
        Ofstream.file (logStream (obj q)) = map toFile (appended p)
        /\ Ofstream.pending (logStream (obj q)) = [])
    /\ (at_CONSOLE (output (obj q)) = true ->
        cout (env q) = cout_at_init q ++ map toConsole (appended p)).
Proof.
  intros Hreach Ha Hn.
  pose proof (reachable_Inv lib os w p Hreach) as HI.
  assert (Ht : terminated p = false).
  { unfold alive in Ha. apply andb_true_iff in Ha.
    destruct Ha as [Ha _]. now destruct (terminated p). }
  pose proof (alive_not_exited p Ha) as He.
  destruct (worker_comes_to_wait_directly p HI Ht Hn He)
    as (ls1 & q1 & Hrun1 & Hls1 & Hnw1 & Ht1 & Hw1 & Hwb1 & Hrd1).
  assert (Hfinal :
            forall ls q,
              run lib os ls p = Some q -> forallb of_worker ls = true ->
              worker q = WWait ->
              logReadBuffer (obj q) = [] -> logWriteBuffer (obj q) = [] ->
              drained q = appended p
              /\ (Ofstream.is_open (logStream (obj q)) = true ->
                  Ofstream.file (logStream (obj q)) = map toFile (appended p)
                  /\ Ofstream.pending (logStream (obj q)) = [])
              /\ (at_CONSOLE (output (obj q)) = true ->
                  cout (env q) = cout_at_init q ++ map toConsole (appended p))).
  { intros ls q Hrun Hls Hwq Hrq Hwbq.
    assert (HIq : Inv q).
    { apply (run_preserves lib os ls p q HI Hrun). }
    pose proof (inv_history q HIq) as Hh.
    rewrite Hrq, Hwbq, app_nil_r in Hh.
    rewrite (worker_steps_keep_history lib os ls p q Hls Hrun) in Hh.
    assert (Hnd : worker q <> WDrain) by (rewrite Hwq; discriminate).
    split; [now symmetry|]. split.
    - intros Ho.
      pose proof (inv_pending q HIq Ho Hnd) as Hp.
      pose proof (inv_file q HIq Ho) as Hf.
      rewrite Hp, app_nil_r in Hf. split; [now rewrite Hh|exact Hp].
    - intros Hc. pose proof (inv_cout q HIq) as Hco.
      rewrite Hc in Hco. now rewrite Hh. }
  destruct (logReadBuffer (obj q1)) as [|x r] eqn:Hr.
  - exists ls1, q1.
    split; [exact Hrun1|]. split; [exact Hls1|].
    split; [rewrite Hnw1; simpl; lia|].
    split; [exact Hw1|]. split; [exact Hr|]. split; [exact Hwb1|].
    apply (Hfinal ls1 q1); assumption.
  - destruct (wake_with_records lib os EmptyString q1 Ht1 Hw1 Hwb1) as
        (q2 & Hstep2 & Ht2 & Hw2 & Hwb2 & Hrd2 & Hc2);
      [rewrite Hr; discriminate|].
    destruct (drain_loop_runs lib os (logWriteBuffer (obj q2)) q2 Ht2 Hw2 eq_refl)
      as (q3 & Hrun3 & Ht3 & Hw3 & Hwb3 & Hrd3 & Hc3).
    destruct (back_to_wait lib os q3 Ht3 Hw3 Hwb3)
      as (q4 & Hrun4 & Ht4 & Hw4 & Hwb4 & Hrd4 & Hc4).
    assert (Hrd : logReadBuffer (obj q4) = []) by congruence.
    set (ls := ls1 ++ [LWake TimedOut EmptyString]
                 ++ repeat LDrain (List.length (logWriteBuffer (obj q2)))
                 ++ [LFlush; LAnnounce; LEnter]).
    assert (Hrun : run lib os ls p = Some q4).
    { unfold ls. rewrite run_app, Hrun1.
      change (run lib os ([LWake TimedOut EmptyString] ++ ?l) q1)
        with (match step lib os (LWake TimedOut EmptyString) q1 with
              | Some p' => run lib os l p'
              | None => None
              end).
      now rewrite Hstep2, run_app, Hrun3. }
    assert (Hls : forallb of_worker ls = true).
    { unfold ls. now rewrite !forallb_app, Hls1, drain_steps_of_worker. }
    exists ls, q4.
    split; [exact Hrun|]. split; [exact Hls|].
    split.
    { unfold ls. rewrite !filter_app, Hnw1, drain_steps_no_wake. simpl. lia. }
    split; [exact Hw4|]. split; [exact Hrd|]. split; [exact Hwb4|].
    apply (Hfinal ls q4); assumption.
Qed.

End FurtherInvariants.

Section ClosedStream.

Context (lib : LoggingLib) {World : Type} (os : Posix World).

(** The stream the locked section of [init] leaves. *)
Lemma init_locked_stream ctime e s :
  match init_locked lib os ctime e s with
  | Returns (_, s') | Throws _ (_, s') =>
      logStream s' = logStream s
      \/ logStream s' = Ofstream.close (logStream s)
      \/ exists ok, logStream s' = Ofstream.open ok (Ofstream.close (logStream s))
  | Terminates => False
  end.
Proof.
  unfold init_locked.
  set (s2 := freshCurrentTime ctime (with_isStop false s)).
  destruct (at_ (output s2) FILE).
  - pose proof (openLogStream_obj lib os e s2) as H.
    destruct (openLogStream lib os e s2) as [[e' s']|x [e' s']|]; [| |exact H].
    + destruct H as [ok ->]. right. right. now exists ok.
    + destruct H as [_ ->]. right. now left.
  - now left.
Qed.

(** A stream with no file attached holds nothing. *)
Lemma step_closed_stream l (p p' : Process World) :
  Inv p -> stopped_idle p ->
  step lib os l p = Some p' ->
  (Ofstream.is_open (logStream (obj p)) = false ->
   logStream (obj p) = Ofstream.closed) ->
  Ofstream.is_open (logStream (obj p')) = false ->
  logStream (obj p') = Ofstream.closed.
Proof.
  intros HI Hidle Hstep Hold.
  assert (Hnoop : isStop (obj p) = true -> logStream (obj p) = Ofstream.closed)
    by (intros Hs; apply (Hidle Hs)).
  revert Hstep. unfold step. destruct (alive p); [|discriminate].
  destruct l; simpl; intros Hstep.
  - injection Hstep as <-. simpl. unfold setOutput.
    destruct (isStop (obj p)) eqn:Hs; simpl; [|exact Hold].
    rewrite (Hnoop eq_refl). destruct o; simpl; rewrite ?andb_false_r; simpl;
      try rewrite (Hnoop eq_refl); reflexivity.
  - injection Hstep as <-. simpl. unfold setLogFile.
    destruct (isStop (obj p)) eqn:Hs; simpl; [|exact Hold].
    rewrite (Hnoop eq_refl). simpl.
    destruct (pathToFile lib logPath _ _). simpl.
    now rewrite (Hnoop eq_refl).
  - injection Hstep as <-. simpl. unfold setLogLevel.
    destruct (isStop (obj p)); exact Hold.
  - injection Hstep as <-. simpl. unfold setFlushFrequency.
    destruct (isStop (obj p)); exact Hold.
  - injection Hstep as <-. simpl. unfold setMaxBufferSize.
    destruct (isStop (obj p)); exact Hold.
  - unfold init_spawn in Hstep.
    destruct (outputThread (obj p)); injection Hstep as <-; exact Hold.
  - destruct (initPc p) eqn:Hpc; try discriminate.
    assert (Hstop : isStop (obj p) = true)
      by (apply (inv_init p HI); now right).
    pose proof (init_locked_stream ctime (env p) (obj p)) as Hobj.
    rewrite (Hnoop Hstop) in Hobj.
    destruct (init_locked lib os ctime (env p) (obj p)) as [[e s]|x [e s]|];
      [| |contradiction]; injection Hstep as <-; simpl;
      (destruct Hobj as [-> |[-> |[[|] ->]]]; simpl;
       [reflexivity|reflexivity|discriminate|reflexivity]).
  - destruct (level_lt level (logLevel (obj p))); injection Hstep as <-;
      exact Hold.
  - destruct (nth_error (inflight p) i); [|discriminate].
    unfold log_locked in Hstep.
    destruct (isStop (obj p)); injection Hstep as <-; exact Hold.
  - destruct (worker p); try discriminate. injection Hstep as <-. simpl.
    unfold announce. destruct (isEngineReady (obj p)); exact Hold.
  - destruct (worker p); try discriminate. injection Hstep as <-. exact Hold.
  - destruct (worker p); try discriminate.
    destruct (match r with Notified => signalled p | _ => true end);
      [|discriminate].
    unfold after_wait in Hstep. simpl in Hstep.
    destruct (isCloseEngine (obj p) && is_empty (logReadBuffer (obj p)));
      injection Hstep as <-; exact Hold.
  - destruct (worker p); try discriminate.
    destruct (logWriteBuffer (obj p)); [discriminate|].
    injection Hstep as <-. simpl. unfold outputToFile, Ofstream.put.
    destruct (at_FILE (output (obj p))); simpl; [|exact Hold].
    destruct (Ofstream.is_open (logStream (obj p))) eqn:Ho; simpl;
      [discriminate|]. rewrite Ho. exact Hold.
  - destruct (worker p); try discriminate.
    destruct (logWriteBuffer (obj p)); [|discriminate].
    injection Hstep as <-. simpl. unfold flush_file, at_, Ofstream.flush.
    destruct (at_FILE (output (obj p))); simpl; [|exact Hold].
    destruct (Ofstream.is_open (logStream (obj p))) eqn:Ho; simpl;
      [discriminate|]. rewrite Ho. exact Hold.
  - destruct (dtor p); try discriminate. injection Hstep as <-.
    unfold dtor_check. destruct (isEngineReady (obj p)); exact Hold.
  - destruct (dtor p); try discriminate. injection Hstep as <-.
    unfold dtor_check. destruct (isEngineReady (obj p)); exact Hold.
Qed.

Lemma reachable_closed_stream (w : World) (p : Process World) :
  reachable lib os w p ->
  Ofstream.is_open (logStream (obj p)) = false ->
  logStream (obj p) = Ofstream.closed.
Proof.
  intros [ls Hrun]. revert Hrun.
  assert (H0 : Ofstream.is_open (logStream (obj (start w))) = false ->
               logStream (obj (start w)) = Ofstream.closed) by reflexivity.
  assert (Hreach0 : reachable lib os w (start w)) by (now exists []).
  revert H0 Hreach0. generalize (start w).
  induction ls as [|l ls IH]; simpl; intros p0 H0 Hreach0 Hrun.
  - now injection Hrun as <-.
  - destruct (step lib os l p0) as [p1|] eqn:Hstep; [|discriminate].
    apply (IH p1); [| |exact Hrun].
    + apply (step_closed_stream l p0 p1); try assumption.
      * now apply (reachable_Inv lib os w).
      * now apply (reachable_stopped_idle lib os w).
    + destruct Hreach0 as [ls0 Hrun0]. exists (ls0 ++ [l]).
      rewrite run_app, Hrun0. simpl. now rewrite Hstep.
Qed.

(** X16. A file sink that is disabled, or whose file could not be
    opened, receives nothing: in every execution, while the sink flag
    is off or no file is attached, the stream holds no text, unflushed
    or flushed, however many records have been drained. *)
Theorem file_sink_without_file_receives_nothing (w : World) (p : Process World) :
  reachable lib os w p ->
  at_FILE (output (obj p)) = false
  \/ Ofstream.is_open (logStream (obj p)) = false ->
  Ofstream.is_open (logStream (obj p)) = false
  /\ Ofstream.pending (logStream (obj p)) = []
  /\ Ofstream.file (logStream (obj p)) = [].
Proof.
  intros Hreach Hoff.
  pose proof (reachable_Inv lib os w p Hreach) as HI.
  assert (Ho : Ofstream.is_open (logStream (obj p)) = false).
  { destruct Hoff as [Hf|Ho]; [|exact Ho].
    destruct (Ofstream.is_open (logStream (obj p))) eqn:Ho; [|reflexivity].
    rewrite (inv_open p HI Ho) in Hf. discriminate. }
  rewrite (reachable_closed_stream w p Hreach Ho). repeat split.
Qed.

End ClosedStream.

(** ** The further properties on the sample runs *)

Lemma life_cycle_never_goes_back_witness :
  run Sample.lib Sample.writable run_reconfigure state_at_join
  = Some state_reconfigured
  /\ configuration (obj state_reconfigured) = configuration (obj state_at_join)
  /\ isStop (obj state_reconfigured) = false.
Proof.
  assert (Hrun : run Sample.lib Sample.writable run_reconfigure state_at_join
                 = Some state_reconfigured) by reflexivity.
  split; [exact Hrun|].
  destruct (life_cycle_never_goes_back Sample.lib Sample.writable run_reconfigure
              state_at_join state_reconfigured Hrun) as (_ & _ & _ & Hfrozen).
  destruct (Hfrozen eq_refl) as [Hstop Hconf].
  split; [exact Hconf|exact Hstop].
Defined.

Lemma exit_only_at_the_destructor_request_witness :
  worker state_two_records = WExit /\ dtor state_two_records = DJoin.
Proof.
  split; [reflexivity|].
  destruct (exit_only_at_the_destructor_request Sample.lib Sample.writable
              ["."%string] state_two_records
              (ex_intro _ run_two_records eq_refl)) as (_ & Hexit & _).
  apply Hexit. reflexivity.
Defined.

Lemma nothing_happens_before_init_witness :
  run Sample.lib Sample.writable run_before_init (start ["."%string])
  = Some state_before_init
  /\ isStop (obj state_before_init) = true
  /\ appended state_before_init = []
  /\ cout (env state_before_init) = [].
Proof.
  assert (Hrun : run Sample.lib Sample.writable run_before_init (start ["."%string])
                 = Some state_before_init) by reflexivity.
  split; [exact Hrun|]. split; [reflexivity|].
  destruct (nothing_happens_before_init Sample.lib Sample.writable ["."%string]
              state_before_init (ex_intro _ run_before_init Hrun) eq_refl)
    as (Ha & _ & _ & _ & Hc & _).
  split; [exact Ha|exact Hc].
Defined.

Lemma sinks_receive_bounded_matching_texts_witness :
  Ofstream.file (logStream (obj state_two_records)) = [line_second; line_first]
  /\ Forall (fun t => String.length t + 1 <= 300)
            (Ofstream.file (logStream (obj state_two_records))
               ++ Ofstream.pending (logStream (obj state_two_records))).
Proof.
  split; [reflexivity|].
  apply (sinks_receive_bounded_matching_texts Sample.lib Sample.writable
           ["."%string] state_two_records (ex_intro _ run_two_records eq_refl)
           eq_refl).
Defined.

Lemma one_wake_writes_every_record_witness :
  List.length (logReadBuffer (obj state_buffered)) = 2
  /\ exists ls q,
      run Sample.lib Sample.writable ls state_buffered = Some q
      /\ List.length (filter is_wake ls) <= 1
      /\ drained q = appended state_buffered.
Proof.
  split; [reflexivity|].
  destruct (one_wake_writes_every_record Sample.lib Sample.writable
              ["."%string] state_buffered (ex_intro _ run_buffered eq_refl)
              eq_refl)
    as (ls & q & Hrun & _ & Hwakes & _ & _ & _ & Hd & _);
    [discriminate|].
  exists ls, q. repeat split; assumption.
Defined.

Lemma file_sink_without_file_receives_nothing_witness :
  run Sample.lib Sample.writable run_console_only (start ["."%string])
  = Some state_console_only
  /\ List.length (drained state_console_only) = 1
  /\ List.length (cout (env state_console_only)) = 1
  /\ Ofstream.file (logStream (obj state_console_only)) = [].
Proof.
  assert (Hrun : run Sample.lib Sample.writable run_console_only
                   (start ["."%string]) = Some state_console_only)
    by reflexivity.
  split; [exact Hrun|]. split; [reflexivity|]. split; [reflexivity|].
  destruct (file_sink_without_file_receives_nothing Sample.lib Sample.writable
              ["."%string] state_console_only
              (ex_intro _ run_console_only Hrun) (or_introl eq_refl))
    as (_ & _ & Hfile).
  exact Hfile.
Defined.
